(** * A shallow embedding of the chess-engine core (bitboards, board,
    zobrist hashing, game state, FEN and UCI I/O) and proofs about it.

    Conventions of the embedding:
    - a [u64] bitboard is a [Z] in [0, 2^64); a square index ([ChessSquare],
      a [u8]) is a [nat];
    - the model follows a release build: integer arithmetic wraps,
      [debug_assert!] is skipped, shift amounts are taken modulo the width,
      and a panic ([unwrap], [expect], [unreachable!], an index out of
      bounds) is [None] of an option result;
    - a [while let Some(x) = bb.pop_lsb()] loop is the list [squares_of bb]
      of the set bits in increasing order. *)

From Stdlib Require Import ZArith NArith Bool Ascii String List Lia Arith.
Import ListNotations.

(* ------------------------------------------------------------------ *)
(** ** chess_piece.rs *)

Inductive Color := White | Black.

Inductive PieceType := Pawn | Knight | Bishop | Rook | Queen | King.

Record ChessPiece := mkPiece { color : Color; piece_type : PieceType }.

Definition opposite (c : Color) : Color :=
  match c with White => Black | Black => White end.

Definition color_eqb (a b : Color) : bool :=
  match a, b with White, White | Black, Black => true | _, _ => false end.

Definition pt_eqb (a b : PieceType) : bool :=
  match a, b with
  | Pawn, Pawn | Knight, Knight | Bishop, Bishop
  | Rook, Rook | Queen, Queen | King, King => true
  | _, _ => false
  end.

Definition piece_eqb (p q : ChessPiece) : bool :=
  color_eqb (color p) (color q) && pt_eqb (piece_type p) (piece_type q).

(** [PieceType::from_idx] over [0..6]: the order of the [pieces] axis. *)
Definition all_piece_types : list PieceType :=
  [Pawn; Knight; Bishop; Rook; Queen; King].

Definition color_idx (c : Color) : nat := match c with White => 0 | Black => 1 end.

Definition pt_idx (t : PieceType) : nat :=
  match t with
  | Pawn => 0 | Knight => 1 | Bishop => 2 | Rook => 3 | Queen => 4 | King => 5
  end.

(** [Color::from_char] and [Color::to_char] *)
Definition color_from_char (c : ascii) : option Color :=
  match c with
  | "w"%char | "W"%char => Some White
  | "b"%char | "B"%char => Some Black
  | _ => None
  end.

Definition color_to_char (c : Color) : ascii :=
  match c with White => "w"%char | Black => "b"%char end.

(** [PieceType::from_idx] *)
Definition pt_from_idx (idx : nat) : option PieceType :=
  match idx with
  | 0 => Some Pawn | 1 => Some Knight | 2 => Some Bishop
  | 3 => Some Rook | 4 => Some Queen | 5 => Some King
  | _ => None
  end.

(** [PieceType::to_char]: the lowercase letter, made uppercase for White. *)
Definition pt_to_char (t : PieceType) (c : Color) : ascii :=
  let lower := match t with
               | Pawn => "p" | Knight => "n" | Bishop => "b"
               | Rook => "r" | Queen => "q" | King => "k"
               end%char in
  if color_eqb c White then Ascii.ascii_of_nat (Ascii.nat_of_ascii lower - 32) else lower.

(* ------------------------------------------------------------------ *)
(** ** chess_square.rs *)

Definition ChessSquare := nat.

Definition sq_new (index : nat) : option ChessSquare :=
  if index <? 64 then Some index else None.

Definition from_coords (file rank : nat) : option ChessSquare :=
  if (file <? 8) && (rank <? 8) then Some (rank * 8 + file) else None.

Definition sq_file (s : ChessSquare) : nat := s mod 8.
Definition sq_rank (s : ChessSquare) : nat := s / 8.

(** [u8] arithmetic wraps in a release build. *)
Definition wrap8 (n : nat) : nat := n mod 256.

Definition square_north (s : ChessSquare) : option ChessSquare := sq_new (wrap8 (s + 8)).
Definition square_south (s : ChessSquare) : option ChessSquare := sq_new (wrap8 (s + 248)).

(** [trailing_zeros] of a [w]-bit word: the index of the lowest set bit,
    or [w] for zero. *)
Fixpoint tz_from (x : Z) (i fuel : nat) : nat :=
  match fuel with
  | O => i
  | S f => if Z.testbit x (Z.of_nat i) then i else tz_from x (S i) f
  end.

Definition trailing_zeros (w : nat) (x : Z) : nat := tz_from x 0 w.

(** [ChessSquare::colour]: [self.0.trailing_zeros() % 2 == 0] on the [u8]. *)
Definition colour (s : ChessSquare) : Color :=
  if Nat.even (trailing_zeros 8 (Z.of_nat (wrap8 s))) then White else Black.

(** [ChessSquare::to_name]: [(b'a' + file) as char] and [(b'1' + rank) as
    char]; [ascii_of_nat] takes its argument modulo 256 as the [u8] sum does. *)
Definition to_name (s : ChessSquare) : list ascii :=
  [Ascii.ascii_of_nat (97 + sq_file s); Ascii.ascii_of_nat (49 + sq_rank s)].

(* ------------------------------------------------------------------ *)
(** ** bitboard.rs *)

Definition u64_mask : Z := Z.ones 64.
Definition u64_not (x : Z) : Z := Z.lxor x u64_mask.

(** [1u64 << square.0]; a release build masks the shift amount. *)
Definition sq_bb (s : ChessSquare) : Z := Z.shiftl 1 (Z.of_nat (s mod 64)).

Definition bb_set (b : Z) (s : ChessSquare) : Z := Z.lor b (sq_bb s).
Definition bb_clear (b : Z) (s : ChessSquare) : Z := Z.land b (u64_not (sq_bb s)).
Definition bb_is_set (b : Z) (s : ChessSquare) : bool := negb (Z.land b (sq_bb s) =? 0)%Z.
Definition bb_is_empty (b : Z) : bool := (b =? 0)%Z.

Definition lsb_idx (b : Z) : option nat :=
  if (b =? 0)%Z then None else Some (trailing_zeros 64 b).

Definition pop_lsb (b : Z) : option (ChessSquare * Z) :=
  match lsb_idx b with
  | Some i => Some (i, Z.lxor b (Z.shiftl 1 (Z.of_nat i)))
  | None => None
  end.

(** The squares a [while let Some(sq) = bb.pop_lsb()] loop visits, in order;
    each step clears one of at most 64 bits. *)
Fixpoint pop_all (fuel : nat) (b : Z) : list ChessSquare :=
  match fuel with
  | O => []
  | S f => match pop_lsb b with
           | Some (s, b') => s :: pop_all f b'
           | None => []
           end
  end.

Definition squares_of (b : Z) : list ChessSquare := pop_all 64 b.

(** [leading_zeros] of a [u64]: scanning from bit 63 down. *)
Fixpoint lz_from (x : Z) (i fuel : nat) : nat :=
  match fuel with
  | O => 64
  | S f => if Z.testbit x (Z.of_nat i) then 63 - i else
             match i with O => 64 | S j => lz_from x j f end
  end.

Definition leading_zeros (x : Z) : nat := lz_from x 63 64.

(** [Bitboard::msb_square]: [63 - leading_zeros] of a non-zero word. *)
Definition msb_square (b : Z) : option ChessSquare :=
  if (b =? 0)%Z then None else Some (63 - leading_zeros b).

(** [Bitboard::count_ones]: [u64::count_ones], the number of set bits among
    the 64. *)
Definition count_ones (b : Z) : nat :=
  length (filter (fun i => Z.testbit b (Z.of_nat i)) (seq 0 64)).

(** Modelled from the spec: [Bitboard::pop_msb] (section 4.1, "lsb_square /
    msb_square / pop_lsb / pop_msb") is called by the source but has no
    definition in src/; it removes and returns the highest set square, as
    [msb_square] finds it ([63 - leading_zeros]). *)
Definition pop_msb (b : Z) : option (ChessSquare * Z) :=
  if (b =? 0)%Z then None
  else let i := 63 - leading_zeros b in Some (i, Z.lxor b (Z.shiftl 1 (Z.of_nat i))).

(** Modelled from the spec: [Bitboard::count] (section 4.1, "count
    (population count)") is called by the source but has no definition in
    src/; it is the number of set bits of the word, as the [count_ones]
    method that [Bitboard] does define computes it. *)
Definition bb_count (b : Z) : nat :=
  length (filter (fun i => Z.testbit b (Z.of_nat i)) (seq 0 64)).

(* ------------------------------------------------------------------ *)
(** ** chess_board.rs: the board and its primitives *)

(** [pieces[color][piece_type]] as a function of the two indices. *)
Record ChessBoard := mkBoard {
  pieces : Color -> PieceType -> Z;
  white_occupancy : Z;
  black_occupancy : Z;
  all_pieces : Z
}.

Definition upd_pieces (f : Color -> PieceType -> Z) (c : Color) (t : PieceType) (v : Z)
  : Color -> PieceType -> Z :=
  fun c' t' => if color_eqb c c' && pt_eqb t t' then v else f c' t'.

Definition get_piece_bitboard (b : ChessBoard) (c : Color) (t : PieceType) : Z :=
  pieces b c t.

Definition board_empty : ChessBoard := mkBoard (fun _ _ => 0%Z) 0 0 0.

Definition remove_piece (p : ChessPiece) (s : ChessSquare) (b : ChessBoard) : ChessBoard :=
  mkBoard (upd_pieces (pieces b) (color p) (piece_type p)
             (bb_clear (pieces b (color p) (piece_type p)) s))
          (bb_clear (white_occupancy b) s)
          (bb_clear (black_occupancy b) s)
          (bb_clear (all_pieces b) s).

Definition add_piece (p : ChessPiece) (s : ChessSquare) (b : ChessBoard) : ChessBoard :=
  mkBoard (upd_pieces (pieces b) (color p) (piece_type p)
             (bb_set (pieces b (color p) (piece_type p)) s))
          (match color p with White => bb_set (white_occupancy b) s | Black => white_occupancy b end)
          (match color p with Black => bb_set (black_occupancy b) s | White => black_occupancy b end)
          (bb_set (all_pieces b) s).

Definition move_piece (from_sq to_sq : ChessSquare) (p : ChessPiece) (b : ChessBoard) : ChessBoard :=
  add_piece p to_sq (remove_piece p from_sq b).

(** The scan of [pieces[color][0..6]] in [get_piece_at]. *)
Fixpoint first_piece (c : Color) (pb : PieceType -> Z) (bit : Z) (ts : list PieceType)
  : option ChessPiece :=
  match ts with
  | [] => None
  | t :: r => if negb (Z.land (pb t) bit =? 0)%Z then Some (mkPiece c t)
              else first_piece c pb bit r
  end.

Definition get_piece_at (b : ChessBoard) (s : ChessSquare) : option ChessPiece :=
  if negb (s <? 64) then None else
  let bit := sq_bb s in
  if (Z.land bit (all_pieces b) =? 0)%Z then None else
  let c := if negb (Z.land (white_occupancy b) bit =? 0)%Z then White else Black in
  first_piece c (pieces b c) bit all_piece_types.

(** [Bitboard::WHITE_PAWNS] ... [Bitboard::BLACK_KING] *)
Definition WHITE_PAWNS : Z := 65280.                  (* 0x000000000000FF00 *)
Definition BLACK_PAWNS : Z := 71776119061217280.      (* 0x00FF000000000000 *)
Definition WHITE_KNIGHTS : Z := 66.                   (* 0x42 *)
Definition BLACK_KNIGHTS : Z := 4755801206503243776.  (* 0x4200000000000000 *)
Definition WHITE_BISHOPS : Z := 36.                   (* 0x24 *)
Definition BLACK_BISHOPS : Z := 2594073385365405696.  (* 0x2400000000000000 *)
Definition WHITE_ROOKS : Z := 129.                    (* 0x81 *)
Definition BLACK_ROOKS : Z := 9295429630892703744.    (* 0x8100000000000000 *)
Definition WHITE_QUEENS : Z := 8.                     (* 0x08 *)
Definition BLACK_QUEENS : Z := 576460752303423488.    (* 0x0800000000000000 *)
Definition WHITE_KING : Z := 16.                      (* 0x10 *)
Definition BLACK_KING : Z := 1152921504606846976.     (* 0x1000000000000000 *)

Definition WHITE_OCCUPANCY : Z :=
  Z.lor WHITE_PAWNS (Z.lor WHITE_KNIGHTS (Z.lor WHITE_BISHOPS
    (Z.lor WHITE_ROOKS (Z.lor WHITE_QUEENS WHITE_KING)))).
Definition BLACK_OCCUPANCY : Z :=
  Z.lor BLACK_PAWNS (Z.lor BLACK_KNIGHTS (Z.lor BLACK_BISHOPS
    (Z.lor BLACK_ROOKS (Z.lor BLACK_QUEENS BLACK_KING)))).
Definition ALL_PIECES : Z := Z.lor BLACK_OCCUPANCY WHITE_OCCUPANCY.

(** [ChessBoard::WHITE_SQUARES] (0xAA55AA55AA55AA55). *)
Definition WHITE_SQUARES : Z := 12273903644374837845.

(** [ChessBoard::new], field by field as written. *)
Definition board_new : ChessBoard :=
  mkBoard (fun c t =>
             match c, t with
             | White, Pawn => WHITE_PAWNS | White, Knight => WHITE_KNIGHTS
             | White, Bishop => WHITE_BISHOPS | White, Rook => WHITE_ROOKS
             | White, Queen => WHITE_QUEENS | White, King => WHITE_KING
             | Black, Pawn => BLACK_PAWNS | Black, Knight => BLACK_KNIGHTS
             | Black, Bishop => BLACK_BISHOPS | Black, Rook => BLACK_ROOKS
             | Black, Queen => BLACK_QUEENS | Black, King => BLACK_KING
             end)
          WHITE_OCCUPANCY
          WHITE_OCCUPANCY
          ALL_PIECES.

(** Occupancy coherence (the spec's invariant 2), as a boolean test. *)
Definition colour_union (b : ChessBoard) (c : Color) : Z :=
  fold_right (fun t acc => Z.lor (pieces b c t) acc) 0%Z all_piece_types.

Definition occupancy_coherent (b : ChessBoard) : bool :=
  (all_pieces b =? Z.lor (white_occupancy b) (black_occupancy b))%Z
  && (Z.land (white_occupancy b) (black_occupancy b) =? 0)%Z
  && (white_occupancy b =? colour_union b White)%Z
  && (black_occupancy b =? colour_union b Black)%Z.

(* ------------------------------------------------------------------ *)
(** ** chess_board.rs: the attack tables, as functions of the index *)

Definition on_board (x y : Z) : bool := (0 <=? x)%Z && (x <? 8)%Z && (0 <=? y)%Z && (y <? 8)%Z.

Definition knight_attacks (i : nat) : Z :=
  let x := Z.of_nat (i mod 8) in
  let y := Z.of_nat (i / 8) in
  fold_left (fun acc dx =>
    fold_left (fun acc dy =>
      if (Z.abs dx + Z.abs dy =? 3)%Z && on_board (x + dx) (y + dy)
      then bb_set acc (Z.to_nat (x + dx + (y + dy) * 8)) else acc)
      [-2; -1; 0; 1; 2]%Z acc)
    [-2; -1; 0; 1; 2]%Z 0%Z.

Definition king_attacks (i : nat) : Z :=
  let x := Z.of_nat (i mod 8) in
  let y := Z.of_nat (i / 8) in
  fold_left (fun acc dx =>
    fold_left (fun acc dy =>
      if negb ((dx =? 0)%Z && (dy =? 0)%Z) && on_board (x + dx) (y + dy)
      then bb_set acc (Z.to_nat (x + dx + (y + dy) * 8)) else acc)
      [-1; 0; 1]%Z acc)
    [-1; 0; 1]%Z 0%Z.

Definition NOT_A_FILE : Z := 18374403900871474942.  (* 0xFEFEFEFEFEFEFEFE *)
Definition NOT_H_FILE : Z := 9187201950435737471.   (* 0x7F7F7F7F7F7F7F7F *)

Definition pawn_attacks_white (i : nat) : Z :=
  let sb := Z.shiftl 1 (Z.of_nat i) in
  Z.lor (Z.land (Z.land (Z.shiftl sb 7) u64_mask) NOT_H_FILE)
        (Z.land (Z.land (Z.shiftl sb 9) u64_mask) NOT_A_FILE).

Definition pawn_attacks_black (i : nat) : Z :=
  let sb := Z.shiftl 1 (Z.of_nat i) in
  Z.lor (Z.land (Z.shiftr sb 7) NOT_A_FILE) (Z.land (Z.shiftr sb 9) NOT_H_FILE).

Definition set_all (sqs : list nat) : Z := fold_left bb_set sqs 0%Z.

(** [ROOK_ATTACKS[i]]: north, south, east, west, as the generator fills them. *)
Definition rook_dirs (i : nat) : list Z :=
  let file := i mod 8 in
  let rank := i / 8 in
  [ set_all (map (fun r => r * 8 + file) (seq (rank + 1) (7 - rank)));
    set_all (map (fun r => r * 8 + file) (rev (seq 0 rank)));
    set_all (map (fun f => rank * 8 + f) (seq (file + 1) (7 - file)));
    set_all (map (fun f => rank * 8 + f) (rev (seq 0 file))) ].

(** [BISHOP_ATTACKS[i]]: index 0 steps (rank-j, file-j), 1 steps (rank-j,
    file+j), 2 steps (rank+j, file+j), 3 steps (rank+j, file-j). *)
Definition bishop_dirs (i : nat) : list Z :=
  let file := i mod 8 in
  let rank := i / 8 in
  [ set_all (map (fun j => (rank - j) * 8 + (file - j)) (seq 1 (Nat.min file rank)));
    set_all (map (fun j => (rank - j) * 8 + (file + j)) (seq 1 (Nat.min (7 - file) rank)));
    set_all (map (fun j => (rank + j) * 8 + (file + j)) (seq 1 (Nat.min (7 - file) (7 - rank))));
    set_all (map (fun j => (rank + j) * 8 + (file - j)) (seq 1 (Nat.min file (7 - rank)))) ].

Definition union_all (l : list Z) : Z := fold_left Z.lor l 0%Z.

(** The [while curr_r != r2 || curr_f != f2] walk of [generate_between];
    an aligned walk takes at most 7 steps. *)
Fixpoint between_walk (fuel : nat) (cr cf r2 f2 sr sf bb : Z) : Z :=
  match fuel with
  | O => bb
  | S n => if (cr =? r2)%Z && (cf =? f2)%Z then bb
           else between_walk n (cr + sr) (cf + sf) r2 f2 sr sf
                  (bb_set bb (Z.to_nat (cr * 8 + cf)))
  end.

Definition BETWEEN (s1 s2 : nat) : option Z :=
  let r1 := Z.of_nat (s1 / 8) in let f1 := Z.of_nat (s1 mod 8) in
  let r2 := Z.of_nat (s2 / 8) in let f2 := Z.of_nat (s2 mod 8) in
  let dr := (r2 - r1)%Z in let df := (f2 - f1)%Z in
  if (dr =? 0)%Z || (df =? 0)%Z || (Z.abs dr =? Z.abs df)%Z then
    let sr := Z.sgn dr in let sf := Z.sgn df in
    Some (between_walk 8 (r1 + sr) (f1 + sf) r2 f2 sr sf 0%Z)
  else None.

Definition unwrap_or_default (o : option Z) : Z := match o with Some z => z | None => 0%Z end.

(** [is_square_attacked]. The two [BETWEEN[..].unwrap()] calls cannot
    fail: an attacker is taken from a ray of [sq], so it is aligned with it. *)
Definition is_square_attacked (b : ChessBoard) (sq : ChessSquare) (attacker : Color) : bool :=
  let enemy := pieces b attacker in
  let all := all_pieces b in
  let incoming_pawn_mask :=
    match attacker with White => pawn_attacks_black sq | Black => pawn_attacks_white sq end in
  if negb (Z.land incoming_pawn_mask (enemy Pawn) =? 0)%Z then true else
  if negb (Z.land (knight_attacks sq) (enemy Knight) =? 0)%Z then true else
  if negb (Z.land (king_attacks sq) (enemy King) =? 0)%Z then true else
  let clear_path a := (Z.land (unwrap_or_default (BETWEEN sq a)) all =? 0)%Z in
  let diagonal := Z.land (Z.lor (enemy Bishop) (enemy Queen)) (union_all (bishop_dirs sq)) in
  if existsb clear_path (squares_of diagonal) then true else
  let straight := Z.land (Z.lor (enemy Rook) (enemy Queen)) (union_all (rook_dirs sq)) in
  existsb clear_path (squares_of straight).

(* ------------------------------------------------------------------ *)
(** ** chess_move.rs and [ChessBoard::apply_move] *)

Record ChessMove := mkMove { mv_from : ChessSquare; mv_to : ChessSquare; promotion : option PieceType }.

Definition opt_pt_eqb (a b : option PieceType) : bool :=
  match a, b with
  | Some x, Some y => pt_eqb x y
  | None, None => true
  | _, _ => false
  end.

Definition move_eqb (m n : ChessMove) : bool :=
  (mv_from m =? mv_from n) && (mv_to m =? mv_to n) && opt_pt_eqb (promotion m) (promotion n).

Definition opt_sq_eqb (o : option ChessSquare) (s : ChessSquare) : bool :=
  match o with Some x => x =? s | None => false end.

(** [(a.file() as i8 - b.file() as i8).abs()] *)
Definition file_dist (a b : ChessSquare) : nat :=
  let fa := sq_file a in let fb := sq_file b in
  if fa <=? fb then fb - fa else fa - fb.

Definition rank_dist (a b : ChessSquare) : nat :=
  let ra := sq_rank a in let rb := sq_rank b in
  if ra <=? rb then rb - ra else ra - rb.

Definition apply_move (b : ChessBoard) (mov : ChessMove) (side : Color)
    (en_passant_sq : option ChessSquare) : option ChessBoard :=
  match get_piece_at b (mv_from mov) with
  | None => None
  | Some moving =>
    let is_en_passant :=
      pt_eqb (piece_type moving) Pawn && opt_sq_eqb en_passant_sq (mv_to mov) in
    let b1 :=
      if is_en_passant then
        let cap_sq := match side with
                      | White => wrap8 (mv_to mov + 248)
                      | Black => wrap8 (mv_to mov + 8)
                      end in
        remove_piece (mkPiece (opposite side) Pawn) cap_sq b
      else match get_piece_at b (mv_to mov) with
           | Some cap => remove_piece cap (mv_to mov) b
           | None => b
           end in
    let b2 := move_piece (mv_from mov) (mv_to mov) moving b1 in
    let b3 := match promotion mov with
              | Some pt => add_piece (mkPiece side pt) (mv_to mov)
                             (remove_piece moving (mv_to mov) b2)
              | None => b2
              end in
    if pt_eqb (piece_type moving) King && (file_dist (mv_from mov) (mv_to mov) =? 2) then
      let kingside := sq_file (mv_from mov) <? sq_file (mv_to mov) in
      let '(rook_from, rook_to) :=
        match side with
        | White => if kingside then (7, 5) else (0, 3)
        | Black => if kingside then (63, 61) else (56, 59)
        end in
      Some (move_piece rook_from rook_to (mkPiece side Rook) b3)
    else Some b3
  end.

(* ------------------------------------------------------------------ *)
(** ** zobrist.rs *)

Definition xs_next (x : Z) : Z :=
  let x := Z.lxor x (Z.land (Z.shiftl x 13) u64_mask) in
  let x := Z.lxor x (Z.shiftr x 7) in
  Z.lxor x (Z.land (Z.shiftl x 17) u64_mask).

Fixpoint xs_stream (n : nat) (x : Z) : list Z :=
  match n with
  | O => []
  | S k => let y := xs_next x in y :: xs_stream k y
  end.

Record ZobristKeys := mkKeys {
  zk_pieces : list Z;      (* [color][piece][sq], flattened in loop order *)
  zk_castling : list Z;
  zk_en_passant : list Z;
  zk_side_to_move : Z
}.

(** [ZobristKeys::new]: seed 123456789, 768 piece keys, 16 castling keys,
    8 file keys, then the side key. *)
Definition zobrist_keys : ZobristKeys :=
  let s := xs_stream 793 123456789 in
  mkKeys (firstn 768 s) (firstn 16 (skipn 768 s)) (firstn 8 (skipn 784 s)) (nth 792 s 0%Z).

(** [keys.pieces[c][t][sq]], for [sq < 64]. *)
Definition key_piece (c : Color) (t : PieceType) (sq : nat) : Z :=
  nth (color_idx c * 384 + pt_idx t * 64 + sq) (zk_pieces zobrist_keys) 0%Z.

(** [keys.castling[rights]]: the rights are four bits, always below 16. *)
Definition key_castling (cr : Z) : Z := nth (Z.to_nat cr) (zk_castling zobrist_keys) 0%Z.

Definition key_ep (file : nat) : Z := nth file (zk_en_passant zobrist_keys) 0%Z.

Definition key_side : Z := zk_side_to_move zobrist_keys.

(* ------------------------------------------------------------------ *)
(** ** chess_game.rs: the game state *)

Inductive Outcome := Unfinished | Finished (w : option Color).

Inductive RuleSet := Legal | PseudoLegal.

(** [CastlingRights(u8)] with its four bits. *)
Definition WHITE_KINGSIDE : Z := 1.
Definition WHITE_QUEENSIDE : Z := 2.
Definition BLACK_KINGSIDE : Z := 4.
Definition BLACK_QUEENSIDE : Z := 8.

Definition cr_has (cr right : Z) : bool := negb (Z.land cr right =? 0)%Z.
Definition cr_remove (cr rights : Z) : Z := Z.land cr (Z.lxor rights 255).

Record GameStateEntry := mkEntry {
  e_chessboard : ChessBoard;
  e_move_made : ChessMove;
  e_side_to_move : Color;
  e_captured_piece : option ChessPiece;
  e_castling_rights : Z;
  e_en_passant : option ChessSquare;
  e_halfmove_clock : N;
  e_fullmove_counter : N;
  e_zobrist_hash : Z
}.

Record ChessGame := mkGame {
  chessboard : ChessBoard;
  side_to_move : Color;
  castling_rights : Z;
  en_passant : option ChessSquare;
  halfmove_clock : N;
  fullmove_counter : N;
  game_history : list GameStateEntry;   (* [Vec]: push appends at the end *)
  zobrist_hash : Z;
  rule_set : RuleSet
}.

(** [u32] wrapping increment. *)
Definition u32_inc (n : N) : N := N.modulo (n + 1) (2 ^ 32).

Definition calculate_hash (g : ChessGame) : Z :=
  let b := chessboard g in
  let h1 := fold_left (fun h sq =>
              match get_piece_at b sq with
              | Some p => Z.lxor h (key_piece (color p) (piece_type p) sq)
              | None => h
              end) (seq 0 64) 0%Z in
  let h2 := fold_left (fun h c =>
              fold_left (fun h t =>
                fold_left (fun h sq => Z.lxor h (key_piece c t sq))
                  (squares_of (get_piece_bitboard b c t)) h)
                all_piece_types h)
              [White; Black] h1 in
  let h3 := Z.lxor h2 (key_castling (castling_rights g)) in
  let h4 := match en_passant g with Some sq => Z.lxor h3 (key_ep (sq_file sq)) | None => h3 end in
  match side_to_move g with Black => Z.lxor h4 key_side | White => h4 end.

(** [get_rights] of [make_move] *)
Definition corner_rights (sq : ChessSquare) : Z :=
  if sq =? 7 then WHITE_KINGSIDE
  else if sq =? 0 then WHITE_QUEENSIDE
  else if sq =? 63 then BLACK_KINGSIDE
  else if sq =? 56 then BLACK_QUEENSIDE
  else 0%Z.

Definition make_move (g : ChessGame) (mov : ChessMove) : option ChessGame :=
  let b := chessboard g in
  let side := side_to_move g in
  match get_piece_at b (mv_from mov) with
  | None => None
  | Some moving =>
    let captured_piece := get_piece_at b (mv_to mov) in
    let is_en_passant :=
      pt_eqb (piece_type moving) Pawn && opt_sq_eqb (en_passant g) (mv_to mov) in
    let is_castling :=
      pt_eqb (piece_type moving) King && (file_dist (mv_from mov) (mv_to mov) =? 2) in
    let entry := mkEntry b mov side
                   (if is_en_passant then Some (mkPiece (opposite side) Pawn) else captured_piece)
                   (castling_rights g) (en_passant g) (halfmove_clock g)
                   (fullmove_counter g) (zobrist_hash g) in
    (* remove old global state, the moving piece and the captured piece *)
    let h := Z.lxor (zobrist_hash g) (key_castling (castling_rights g)) in
    let h := match en_passant g with Some ep => Z.lxor h (key_ep (sq_file ep)) | None => h end in
    let h := Z.lxor h key_side in
    let h := Z.lxor h (key_piece (color moving) (piece_type moving) (mv_from mov)) in
    let oh :=
      if is_en_passant then
        let cap_sq_idx := match side with
                          | White => wrap8 (mv_to mov + 248)
                          | Black => wrap8 (mv_to mov + 8)
                          end in
        if cap_sq_idx <? 64 then Some (Z.lxor h (key_piece (opposite side) Pawn cap_sq_idx))
        else None
      else match captured_piece with
           | Some cap => Some (Z.lxor h (key_piece (color cap) (piece_type cap) (mv_to mov)))
           | None => Some h
           end in
    match oh with
    | None => None
    | Some h =>
      if negb (mv_to mov <? 64) then None else
      let final_piece_type := match promotion mov with Some t => t | None => piece_type moving end in
      let h := Z.lxor h (key_piece (color moving) final_piece_type (mv_to mov)) in
      let oh :=
        if is_castling then
          match side, sq_file (mv_to mov) with
          | White, 6 => Some (7, 5)
          | White, 2 => Some (0, 3)
          | Black, 6 => Some (63, 61)
          | Black, 2 => Some (56, 59)
          | _, _ => None
          end
        else Some (0, 0) in
      match oh with
      | None => None
      | Some (rook_from, rook_to) =>
        let h := if is_castling
                 then Z.lxor (Z.lxor h (key_piece side Rook rook_from)) (key_piece side Rook rook_to)
                 else h in
        let rights_to_remove :=
          if pt_eqb (piece_type moving) King then
            match side with
            | White => Z.lor WHITE_KINGSIDE WHITE_QUEENSIDE
            | Black => Z.lor BLACK_KINGSIDE BLACK_QUEENSIDE
            end
          else 0%Z in
        let rights_to_remove := Z.lor rights_to_remove (corner_rights (mv_from mov)) in
        let rights_to_remove := Z.lor rights_to_remove (corner_rights (mv_to mov)) in
        let cr := cr_remove (castling_rights g) rights_to_remove in
        let ep :=
          if pt_eqb (piece_type moving) Pawn && (rank_dist (mv_from mov) (mv_to mov) =? 2)
          then from_coords (sq_file (mv_from mov))
                 ((sq_rank (mv_from mov) + sq_rank (mv_to mov)) / 2)
          else None in
        let hm := match piece_type moving, captured_piece with
                  | Pawn, _ | _, Some _ => 0%N
                  | _, None => u32_inc (halfmove_clock g)
                  end in
        let fm := match side with
                  | Black => u32_inc (fullmove_counter g)
                  | White => fullmove_counter g
                  end in
        (* [apply_move] gets the en-passant square just pushed to the history *)
        match apply_move b mov side (e_en_passant entry) with
        | None => None
        | Some b' =>
          let h := Z.lxor h (key_castling cr) in
          let h := match ep with Some e => Z.lxor h (key_ep (sq_file e)) | None => h end in
          Some (mkGame b' (opposite side) cr ep hm fm (game_history g ++ [entry]) h (rule_set g))
        end
      end
    end
  end.

Definition unmake_move (g : ChessGame) : option ChessGame :=
  match rev (game_history g) with
  | [] => None
  | entry :: older_rev =>
    let mov := e_move_made entry in
    let side := e_side_to_move entry in
    let b := chessboard g in
    match get_piece_at b (mv_to mov) with
    | None => None
    | Some current_piece =>
      let b1 := match promotion mov with
                | Some _ => add_piece (mkPiece side Pawn) (mv_from mov)
                              (remove_piece current_piece (mv_to mov) b)
                | None => move_piece (mv_to mov) (mv_from mov) current_piece b
                end in
      let ob2 :=
        match e_captured_piece entry with
        | Some cap_piece =>
          let ocap_sq :=
            if pt_eqb (piece_type current_piece) Pawn && opt_sq_eqb (e_en_passant entry) (mv_to mov)
            then from_coords (sq_file (mv_to mov)) (sq_rank (mv_from mov))
            else Some (mv_to mov) in
          match ocap_sq with
          | Some cap_sq => Some (add_piece cap_piece cap_sq b1)
          | None => None
          end
        | None => Some b1
        end in
      let ob3 :=
        match ob2 with
        | None => None
        | Some b2 =>
          if pt_eqb (piece_type current_piece) King && (file_dist (mv_from mov) (mv_to mov) =? 2) then
            let squares :=
              if mv_to mov =? 6 then Some (5, 7)
              else if mv_to mov =? 2 then Some (3, 0)
              else if mv_to mov =? 62 then Some (61, 63)
              else if mv_to mov =? 58 then Some (59, 56)
              else None in
            match squares with
            | None => None
            | Some (rook_now, rook_orig) =>
              match get_piece_at b2 rook_now with
              | Some rook => Some (move_piece rook_now rook_orig rook b2)
              | None => None
              end
            end
          else Some b2
        end in
      match ob3 with
      | None => None
      | Some b3 =>
        Some (mkGame b3 side (e_castling_rights entry) (e_en_passant entry)
                (e_halfmove_clock entry) (e_fullmove_counter entry)
                (rev older_rev) (zobrist_hash g) (rule_set g))
      end
    end
  end.

(* ------------------------------------------------------------------ *)
(** ** Decimal numbers: [u32::to_string] and [str::parse::<u32>] *)

Definition digit_char (d : N) : ascii := ascii_of_N (48 + d).

(** Decimal digits of [n], most significant first; 20 digits cover [u64]. *)
Fixpoint dec_aux (fuel : nat) (n : N) (acc : list ascii) : list ascii :=
  match fuel with
  | O => acc
  | S f => let acc := digit_char (N.modulo n 10) :: acc in
           if (n <? 10)%N then acc else dec_aux f (N.div n 10) acc
  end.

Definition dec_string (n : N) : list ascii := dec_aux 20 n [].

Definition digit_val (c : ascii) : option N :=
  let v := N_of_ascii c in
  if (48 <=? v)%N && (v <=? 57)%N then Some (v - 48)%N else None.

Definition is_digit (c : ascii) : bool :=
  match digit_val c with Some _ => true | None => false end.

Definition digits_value (acc : N) (l : list ascii) : N :=
  fold_left (fun acc c => match digit_val c with Some d => (acc * 10 + d)%N | None => acc end) l acc.

(** [<u32 as FromStr>::from_str]: an optional [+], then at least one digit,
    and a value below [2^32]. *)
Definition parse_u32 (s : list ascii) : option N :=
  let ds := match s with "+"%char :: r => r | _ => s end in
  match ds with
  | [] => None
  | _ => if forallb is_digit ds then
           let v := digits_value 0 ds in if (v <? 2 ^ 32)%N then Some v else None
         else None
  end.

(* ------------------------------------------------------------------ *)
(** ** FEN input: [ChessGame::from_fen] *)

(** [str::split(' ')]: the pieces between separators, empty ones included. *)
Fixpoint split_on (c : ascii) (s : list ascii) : list (list ascii) :=
  match s with
  | [] => [[]]
  | x :: r => if Ascii.eqb x c then [] :: split_on c r
              else match split_on c r with
                   | [] => [[x]]
                   | w :: ws => (x :: w) :: ws
                   end
  end.

Definition piece_of_char (c : ascii) : option ChessPiece :=
  match c with
  | "P"%char => Some (mkPiece White Pawn) | "p"%char => Some (mkPiece Black Pawn)
  | "N"%char => Some (mkPiece White Knight) | "n"%char => Some (mkPiece Black Knight)
  | "B"%char => Some (mkPiece White Bishop) | "b"%char => Some (mkPiece Black Bishop)
  | "R"%char => Some (mkPiece White Rook) | "r"%char => Some (mkPiece Black Rook)
  | "Q"%char => Some (mkPiece White Queen) | "q"%char => Some (mkPiece Black Queen)
  | "K"%char => Some (mkPiece White King) | "k"%char => Some (mkPiece Black King)
  | _ => None
  end.

(** [board_array : [Option<ChessPiece>; 64]] as a function of the index. *)
Definition BoardArray := nat -> option ChessPiece.

Definition arr_set (a : BoardArray) (i : nat) (p : ChessPiece) : BoardArray :=
  fun j => if j =? i then Some p else a j.

Definition arr_clear (a : BoardArray) (i : nat) : BoardArray :=
  fun j => if j =? i then None else a j.

(** The [for c in board_str.chars()] loop, with [rank] and [file] as [u8]. *)
Fixpoint parse_placement (s : list ascii) (rank file : nat) (a : BoardArray) : option BoardArray :=
  match s with
  | [] => Some a
  | c :: r =>
    if Ascii.eqb c "/" then parse_placement r (wrap8 (rank + 255)) 0 a
    else match digit_val c with
         | Some d => if (1 <=? d)%N && (d <=? 8)%N
                     then parse_placement r rank (wrap8 (file + N.to_nat d)) a
                     else None
         | None =>
           match piece_of_char c with
           | None => None
           | Some p =>
             let index := rank * 8 + file in
             if index <? 64 then parse_placement r rank (wrap8 (file + 1)) (arr_set a index p)
             else None
           end
         end
  end.

(** [ChessSquare::from_name] *)
Definition from_name (name : list ascii) : option ChessSquare :=
  match name with
  | [f; r] =>
    let fv := N_of_ascii f in let rv := N_of_ascii r in
    if (97 <=? fv)%N && (fv <=? 104)%N && (49 <=? rv)%N && (rv <=? 56)%N
    then from_coords (N.to_nat (fv - 97)) (N.to_nat (rv - 49))
    else None
  | _ => None
  end.

(** [CastlingRights::from_fen] *)
Definition castling_from_fen (s : list ascii) : Z :=
  let has c := existsb (fun x => Ascii.eqb x c) s in
  Z.lor (if has "K"%char then WHITE_KINGSIDE else 0)
   (Z.lor (if has "Q"%char then WHITE_QUEENSIDE else 0)
    (Z.lor (if has "k"%char then BLACK_KINGSIDE else 0)
           (if has "q"%char then BLACK_QUEENSIDE else 0)))%Z.

Definition build_board (a : BoardArray) : ChessBoard :=
  fold_left (fun b i => match a i with Some p => add_piece p i b | None => b end)
    (seq 0 64) board_empty.

Definition from_fen (fen : list ascii) : option ChessGame :=
  match split_on " " fen with
  | board_str :: side_str :: castling_str :: ep_str :: hm_str :: fm_str :: _ =>
    match parse_u32 hm_str, parse_u32 fm_str with
    | Some halfmove, Some fullmove =>
      match parse_placement board_str 7 0 (fun _ => None) with
      | None => None
      | Some board_array =>
        let oep := match ep_str with
                   | ["-"%char] => Some None
                   | s => match from_name s with Some sq => Some (Some sq) | None => None end
                   end in
        match oep with
        | None => None
        | Some ep =>
          Some (mkGame (build_board board_array)
                  (match side_str with ["w"%char] => White | _ => Black end)
                  (castling_from_fen castling_str) ep halfmove fullmove [] 0%Z Legal)
        end
      end
    | _, _ => None
    end
  | _ => None
  end.

(* ------------------------------------------------------------------ *)
(** ** FEN output: [ChessGame::to_fen] *)

Definition piece_char (p : ChessPiece) : ascii :=
  let c := match piece_type p with
           | Pawn => "p" | Knight => "n" | Bishop => "b"
           | Rook => "r" | Queen => "q" | King => "k"
           end%char in
  match color p with White => Ascii.ascii_of_nat (Ascii.nat_of_ascii c - 32) | Black => c end.

(** One pass of [for rank in (0..8).rev()]. *)
Definition to_fen_rank (b : ChessBoard) (rank : nat) (fen : list ascii) : list ascii :=
  let '(fen, empty) :=
    fold_left (fun st file =>
      let '(fen, empty) := st in
      match get_piece_at b (rank * 8 + file) with
      | Some p =>
        let fen := if 0 <? empty then fen ++ dec_string (N.of_nat empty) else fen in
        (fen ++ [piece_char p], 0)
      | None => (fen, empty + 1)
      end) (seq 0 8) (fen, 0) in
  let fen := if 0 <? empty then fen ++ dec_string (N.of_nat empty) else fen in
  if 0 <? rank then fen ++ ["/"%char] else fen.

(** [CastlingRights::to_fen] *)
Definition castling_to_fen (cr : Z) : list ascii :=
  let s := (if cr_has cr WHITE_KINGSIDE then ["K"%char] else [])
        ++ (if cr_has cr WHITE_QUEENSIDE then ["Q"%char] else [])
        ++ (if cr_has cr BLACK_KINGSIDE then ["k"%char] else [])
        ++ (if cr_has cr BLACK_QUEENSIDE then ["q"%char] else []) in
  match s with [] => ["-"%char] | _ => s end.

(** [ChessSquare::name]: [format!("{}{}", (b'a' + file) as char, rank + 1)] *)
Definition sq_name (s : ChessSquare) : list ascii :=
  Ascii.ascii_of_nat (97 + sq_file s) :: dec_string (N.of_nat (sq_rank s + 1)).

Definition to_fen (g : ChessGame) : list ascii :=
  let fen := fold_left (fun fen rank => to_fen_rank (chessboard g) rank fen) (rev (seq 0 8)) [] in
  fen ++ [" "%char]
      ++ [match side_to_move g with White => "w"%char | Black => "b"%char end]
      ++ [" "%char] ++ castling_to_fen (castling_rights g)
      ++ [" "%char] ++ match en_passant g with Some sq => sq_name sq | None => ["-"%char] end
      ++ [" "%char] ++ dec_string (halfmove_clock g)
      ++ [" "%char] ++ dec_string (fullmove_counter g).

(* ------------------------------------------------------------------ *)
(** ** chess_game.rs: move generation *)

(** The [move_pusher] closure: the squares reachable along four rays. For
    [i < 2] the blocker is taken with [pop_msb], otherwise with [pop_lsb];
    the [expect] cannot fail since [blockers] is not empty. *)
Definition slide_targets (all opps : Z) (from_sq : ChessSquare) (ray_bb : list Z) : Z :=
  fold_left (fun ray ir =>
    let '(i, r) := ir in
    let blockers := Z.land r all in
    if bb_is_empty blockers then Z.lor ray r
    else match (if i <? 2 then pop_msb blockers else pop_lsb blockers) with
         | None => ray
         | Some (to_sq, _) =>
           let ray := if bb_is_set opps to_sq then bb_set ray to_sq else ray in
           Z.lor ray (unwrap_or_default (BETWEEN from_sq to_sq))
         end)
    (combine (seq 0 4) ray_bb) 0%Z.

Definition move_pusher (all opps : Z) (from_sq : ChessSquare) (ray_bb : list Z) : list ChessMove :=
  map (fun to_sq => mkMove from_sq to_sq None) (squares_of (slide_targets all opps from_sq ray_bb)).

Definition pawn_moves (g : ChessGame) (opps : Z) (from_sq : ChessSquare) : list ChessMove :=
  let side := side_to_move g in
  let all := all_pieces (chessboard g) in
  let rank_7 := match side with White => 6 | Black => 1 end in
  let rank_2 := match side with White => 1 | Black => 6 end in
  let add_move (from to : ChessSquare) :=
    if sq_rank from =? rank_7
    then map (fun t => mkMove from to (Some t)) [Queen; Rook; Bishop; Knight]
    else [mkMove from to None] in
  let ahead (s : ChessSquare) :=
    match side with White => square_north s | Black => square_south s end in
  let pushes :=
    match ahead from_sq with
    | Some to_sq =>
      if negb (bb_is_set all to_sq) then
        add_move from_sq to_sq ++
        (if sq_rank from_sq =? rank_2 then
           match ahead to_sq with
           | Some to2 => if negb (bb_is_set all to2) then [mkMove from_sq to2 None] else []
           | None => []
           end
         else [])
      else []
    | None => []
    end in
  let attacks := match side with
                 | White => pawn_attacks_white from_sq
                 | Black => pawn_attacks_black from_sq
                 end in
  let targets := match en_passant g with Some ep => Z.lor opps (sq_bb ep) | None => opps end in
  pushes ++ flat_map (fun to_sq => add_move from_sq to_sq) (squares_of (Z.land attacks targets)).

(** The [clear] closure of the castling code. *)
Definition castle_clear (g : ChessGame) (from to : ChessSquare) : bool :=
  let b := chessboard g in
  let opp := opposite (side_to_move g) in
  match BETWEEN from to with
  | None => false
  | Some between =>
    if bb_is_empty (Z.land between (all_pieces b)) then
      match pop_lsb between with
      | Some (sq, _) => negb (is_square_attacked b from opp || is_square_attacked b sq opp)
      | None => false
      end
    else false
  end.

Definition king_moves (g : ChessGame) (allies : Z) (king : Z) : list ChessMove :=
  let b := chessboard g in
  let cr := castling_rights g in
  match pop_lsb king with
  | None => []
  | Some (from_sq, _) =>
    map (fun sq => mkMove from_sq sq None)
        (squares_of (Z.land (king_attacks from_sq) (u64_not allies)))
    ++ match side_to_move g with
       | White =>
         (if cr_has cr WHITE_KINGSIDE && castle_clear g 4 6 then [mkMove 4 6 None] else [])
         ++ (if cr_has cr WHITE_QUEENSIDE && negb (bb_is_set (all_pieces b) 1)
                && castle_clear g 4 2 then [mkMove 4 2 None] else [])
       | Black =>
         (if cr_has cr BLACK_KINGSIDE && castle_clear g 60 62 then [mkMove 60 62 None] else [])
         ++ (if cr_has cr BLACK_QUEENSIDE && negb (bb_is_set (all_pieces b) 57)
                && castle_clear g 60 58 then [mkMove 60 58 None] else [])
       end
  end.

Definition generate_pseudolegal (g : ChessGame) : list ChessMove :=
  let b := chessboard g in
  let side := side_to_move g in
  let '(allies, opps) := match side with
                         | White => (white_occupancy b, black_occupancy b)
                         | Black => (black_occupancy b, white_occupancy b)
                         end in
  let all := all_pieces b in
  let own := pieces b side in
  flat_map (pawn_moves g opps) (squares_of (own Pawn))
  ++ flat_map (fun from_sq =>
       map (fun to_sq => mkMove from_sq to_sq None)
           (squares_of (Z.land (knight_attacks from_sq) (u64_not allies))))
       (squares_of (own Knight))
  ++ flat_map (fun from_sq => move_pusher all opps from_sq (bishop_dirs from_sq))
       (squares_of (own Bishop))
  ++ flat_map (fun from_sq => move_pusher all opps from_sq (rook_dirs from_sq))
       (squares_of (own Rook))
  ++ flat_map (fun from_sq => move_pusher all opps from_sq (rook_dirs from_sq)
                              ++ move_pusher all opps from_sq (bishop_dirs from_sq))
       (squares_of (own Queen))
  ++ king_moves g allies (own King).

(** [is_legal]: [None] where it panics (the move has no piece on its
    origin, or the mover has no king after it). *)
Definition is_legal (g : ChessGame) (mov : ChessMove) : option bool :=
  let side := side_to_move g in
  match apply_move (chessboard g) mov side (en_passant g) with
  | None => None
  | Some temp_board =>
    match pop_lsb (get_piece_bitboard temp_board side King) with
    | None => None
    | Some (king_sq, _) => Some (negb (is_square_attacked temp_board king_sq (opposite side)))
    end
  end.

(** [legal_moves.retain(|x| self.is_legal(x))] *)
Fixpoint retain_legal (g : ChessGame) (l : list ChessMove) : option (list ChessMove) :=
  match l with
  | [] => Some []
  | m :: r =>
    match is_legal g m with
    | None => None
    | Some keep =>
      match retain_legal g r with
      | None => None
      | Some r' => Some (if keep then m :: r' else r')
      end
    end
  end.

(** The legal-move list of [check_game_state]: the pseudo-legal moves that
    [is_legal] keeps. *)
Definition legal_moves (g : ChessGame) : option (list ChessMove) :=
  retain_legal g (generate_pseudolegal g).

Definition is_valid (g : ChessGame) (mov : ChessMove) : option bool :=
  if existsb (move_eqb mov) (generate_pseudolegal g) then
    match rule_set g with
    | PseudoLegal => Some true
    | Legal => is_legal g mov
    end
  else Some false.

(* ------------------------------------------------------------------ *)
(** ** chess_game.rs: [check_game_state] *)

(** Two [pop_msb] calls and the comparison of the squares' [colour]. *)
Definition same_colour_pair (bishops : Z) : bool :=
  match pop_msb bishops with
  | Some (sq1, rest) =>
    match pop_msb rest with
    | Some (sq2, _) => color_eqb (colour sq1) (colour sq2)
    | None => false
    end
  | None => false
  end.

(** The tail of [check_game_state], from [// insufficient material] on. *)
Definition material_outcome (b : ChessBoard) : Outcome :=
  let count := bb_count (all_pieces b) in
  if count =? 2 then Finished None else
  let white_bishops := get_piece_bitboard b White Bishop in
  let white_knights := get_piece_bitboard b White Knight in
  let black_bishops := get_piece_bitboard b Black Bishop in
  let black_knights := get_piece_bitboard b Black Knight in
  let white_minors := Z.lor white_bishops white_knights in
  let black_minors := Z.lor black_bishops black_knights in
  if (count =? 3) && (negb (bb_is_empty white_minors) || negb (bb_is_empty black_minors))
  then Finished None else
  if count =? 4 then
    if bb_is_empty white_bishops && bb_is_empty black_bishops then Finished None
    else if (bb_count black_bishops =? 2) && same_colour_pair black_bishops then Finished None
    else if (bb_count white_bishops =? 2) && same_colour_pair white_bishops then Finished None
    else Unfinished
  else Unfinished.

Definition repetition_count (g : ChessGame) : nat :=
  length (filter (fun e => (e_zobrist_hash e =? zobrist_hash g)%Z) (game_history g)).

Definition check_game_state (g : ChessGame) : option Outcome :=
  let b := chessboard g in
  if (100 <=? halfmove_clock g)%N then Some (Finished None) else
  if 2 <=? repetition_count g then Some (Finished None) else
  if bb_is_empty (get_piece_bitboard b White King) then Some (Finished (Some Black)) else
  if bb_is_empty (get_piece_bitboard b Black King) then Some (Finished (Some White)) else
  match rule_set g with
  | PseudoLegal => Some Unfinished
  | Legal =>
    match pop_lsb (get_piece_bitboard b (side_to_move g) King) with
    | None => None
    | Some (king_sq, _) =>
      match legal_moves g with
      | None => None
      | Some [] =>
        if is_square_attacked b king_sq (opposite (side_to_move g))
        then Some (Finished (Some (opposite (side_to_move g))))
        else Some (Finished None)
      | Some (_ :: _) => Some (material_outcome b)
      end
    end
  end.

(* ------------------------------------------------------------------ *)
(** ** chess_move.rs: [ChessMove::from_uci] *)

Inductive Result (A E : Type) := Ok (a : A) | Err (e : E).
Arguments Ok {A E} a.
Arguments Err {A E} e.

(** [PieceType::from_char] *)
Definition pt_from_char (c : ascii) : option PieceType :=
  match c with
  | "p"%char | "P"%char => Some Pawn
  | "n"%char | "N"%char => Some Knight
  | "b"%char | "B"%char => Some Bishop
  | "r"%char | "R"%char => Some Rook
  | "q"%char | "Q"%char => Some Queen
  | "k"%char | "K"%char => Some King
  | _ => None
  end.

(** [from_uci] on an ASCII string ([len] counts its characters and the
    slices [&uci[0..2]], [&uci[2..4]] are its characters 0-1 and 2-3);
    [None] is the panic of [from_sq.unwrap()] or [to_sq.unwrap()]. *)
Definition from_uci (uci : list ascii) : option (Result ChessMove string) :=
  let n := length uci in
  if (n <? 4) || (5 <? n) then Some (Err "Invalid UCI length"%string) else
  let from_sq := from_name (firstn 2 uci) in
  let to_sq := from_name (firstn 2 (skipn 2 uci)) in
  let promo : Result (option PieceType) string :=
    if n =? 5 then
      match nth_error uci 4 with
      | None => Err "Invalid promotion character"%string
      | Some c =>
        if negb (Ascii.eqb c "Q") && negb (Ascii.eqb c "R")
           && negb (Ascii.eqb c "B") && negb (Ascii.eqb c "N")
        then Err "Invalid promotion piece"%string
        else match pt_from_char c with
             | Some t => Ok (Some t)
             | None => Err "Invalid promotion piece type"%string
             end
      end
    else Ok None in
  match promo with
  | Err e => Some (Err e)
  | Ok promotion =>
    match from_sq, to_sq with
    | Some f, Some t => Some (Ok (mkMove f t promotion))
    | _, _ => None
    end
  end.

(** [ChessMove::to_uci]: the two square names, then a lowercase promotion
    letter ([' '] for a pawn or king). *)
Definition to_uci (m : ChessMove) : list ascii :=
  sq_name (mv_from m) ++ sq_name (mv_to m)
  ++ match promotion m with
     | Some t => [match t with
                  | Queen => "q" | Rook => "r" | Bishop => "b" | Knight => "n"
                  | _ => " "
                  end%char]
     | None => []
     end.

(** [ChessGame::uci_to_move]: two characters, two more, then the next one if
    any; the rest of the input is not read. *)
Definition uci_to_move (input : list ascii) : Result ChessMove string :=
  let from_str := firstn 2 input in
  let to_str := firstn 2 (skipn 2 input) in
  let promotion := nth_error input 4 in
  match from_name from_str with
  | None => Err "Invalid from square"%string
  | Some from_sq =>
    match from_name to_str with
    | None => Err "Invalid to square"%string
    | Some to_sq =>
      match promotion with
      | Some p =>
        match p with
        | "q"%char => Ok (mkMove from_sq to_sq (Some Queen))
        | "r"%char => Ok (mkMove from_sq to_sq (Some Rook))
        | "b"%char => Ok (mkMove from_sq to_sq (Some Bishop))
        | "n"%char => Ok (mkMove from_sq to_sq (Some Knight))
        | _ => Err "Invalid promotion"%string
        end
      | None => Ok (mkMove from_sq to_sq None)
      end
    end
  end.

(* ------------------------------------------------------------------ *)
(** ** Canonical FEN strings, from the spec's words (section 6): six fields
    separated by single spaces; ranks 8 to 1 separated by [/], each a
    sequence of piece letters and digits 1-8 for runs of empty squares, the
    runs minimal (two digits are never adjacent) and the rank 8 squares wide;
    castling in the order KQkq or [-]; a lowercase square name or [-] for
    en passant; decimal clocks. The clocks are [u32] fields of the position,
    so a canonical FEN has clocks below [2^32]. *)

Inductive FenToken := FEmpty (k : nat) | FPiece (p : ChessPiece).

(** "letters PNBRQK (uppercase=White, lowercase=Black)" *)
Definition fen_letter (p : ChessPiece) : ascii :=
  match color p, piece_type p with
  | White, Pawn => "P" | White, Knight => "N" | White, Bishop => "B"
  | White, Rook => "R" | White, Queen => "Q" | White, King => "K"
  | Black, Pawn => "p" | Black, Knight => "n" | Black, Bishop => "b"
  | Black, Rook => "r" | Black, Queen => "q" | Black, King => "k"
  end%char.

Definition token_chars (t : FenToken) : list ascii :=
  match t with
  | FEmpty k => [Ascii.ascii_of_nat (48 + k)]
  | FPiece p => [fen_letter p]
  end.

Definition token_width (t : FenToken) : nat :=
  match t with FEmpty k => k | FPiece _ => 1 end.

Fixpoint rank_width (ts : list FenToken) : nat :=
  match ts with [] => 0 | t :: r => token_width t + rank_width r end.

Fixpoint runs_minimal (ts : list FenToken) : bool :=
  match ts with
  | FEmpty _ :: (FEmpty _ :: _) as r => false
  | _ :: r => runs_minimal r
  | [] => true
  end.

Definition token_ok (t : FenToken) : bool :=
  match t with FEmpty k => (1 <=? k) && (k <=? 8) | FPiece _ => true end.

Definition canonical_rank (ts : list FenToken) : bool :=
  (rank_width ts =? 8) && forallb token_ok ts && runs_minimal ts.

Definition render_rank (ts : list FenToken) : list ascii := flat_map token_chars ts.

(** The ranks, rank 8 first, joined by [/]. *)
Fixpoint render_placement (ranks : list (list FenToken)) : list ascii :=
  match ranks with
  | [] => []
  | [r] => render_rank r
  | r :: rs => render_rank r ++ "/"%char :: render_placement rs
  end.

Record FenFields := mkFenFields {
  ff_ranks : list (list FenToken);     (* rank 8 first *)
  ff_white_to_move : bool;
  ff_wk : bool; ff_wq : bool; ff_bk : bool; ff_bq : bool;
  ff_ep : option (nat * nat);          (* (file, rank), from 0 *)
  ff_halfmove : N;
  ff_fullmove : N
}.

Definition render_castling (wk wq bk bq : bool) : list ascii :=
  match (if wk then ["K"%char] else []) ++ (if wq then ["Q"%char] else [])
        ++ (if bk then ["k"%char] else []) ++ (if bq then ["q"%char] else []) with
  | [] => ["-"%char]
  | s => s
  end.

Definition render_ep (ep : option (nat * nat)) : list ascii :=
  match ep with
  | None => ["-"%char]
  | Some (f, r) => [Ascii.ascii_of_nat (97 + f); Ascii.ascii_of_nat (49 + r)]
  end.

Definition render_fen (f : FenFields) : list ascii :=
  render_placement (ff_ranks f)
  ++ " "%char :: [if ff_white_to_move f then "w"%char else "b"%char]
  ++ " "%char :: render_castling (ff_wk f) (ff_wq f) (ff_bk f) (ff_bq f)
  ++ " "%char :: render_ep (ff_ep f)
  ++ " "%char :: dec_string (ff_halfmove f)
  ++ " "%char :: dec_string (ff_fullmove f).

Definition canonical_fields (f : FenFields) : bool :=
  (length (ff_ranks f) =? 8) && forallb canonical_rank (ff_ranks f)
  && match ff_ep f with Some (fl, r) => (fl <? 8) && (r <? 8) | None => true end
  && (ff_halfmove f <? 2 ^ 32)%N && (ff_fullmove f <? 2 ^ 32)%N.

(** The squares a rank of tokens describes, file a first. *)
Definition expand_rank (ts : list FenToken) : list (option ChessPiece) :=
  flat_map (fun t => match t with FEmpty k => repeat None k | FPiece p => [Some p] end) ts.

(** The board array after the parser has read the cells of one rank from
    index [base] on, and after it has read the ranks from [rank] down. *)
Fixpoint write_cells (a : BoardArray) (base : nat) (cells : list (option ChessPiece)) : BoardArray :=
  match cells with
  | [] => a
  | None :: r => write_cells a (S base) r
  | Some p :: r => write_cells (arr_set a base p) (S base) r
  end.

Fixpoint write_ranks (a : BoardArray) (rank : nat) (ranks : list (list FenToken)) : BoardArray :=
  match ranks with
  | [] => a
  | ts :: rs => write_ranks (write_cells a (rank * 8) (expand_rank ts)) (rank - 1) rs
  end.

(** What [to_fen] writes for a rank, as a function of its cells: the pending
    run of empty squares is flushed before a piece and at the end. *)
Definition flush_empty (fen : list ascii) (empty : nat) : list ascii :=
  if 0 <? empty then fen ++ dec_string (N.of_nat empty) else fen.

Fixpoint emit_cells (fen : list ascii) (empty : nat) (cells : list (option ChessPiece))
  : list ascii * nat :=
  match cells with
  | [] => (fen, empty)
  | Some p :: r => emit_cells (flush_empty fen empty ++ [piece_char p]) 0 r
  | None :: r => emit_cells fen (empty + 1) r
  end.

(** The bits of a board built from the array [a] agree with the array on
    the squares below [n], and are clear from [n] on. *)
Definition board_matches (a : BoardArray) (n : nat) (B : ChessBoard) : Prop :=
  (forall c t j, Z.testbit (pieces B c t) (Z.of_nat j) =
     (j <? n) && match a j with
                 | Some p => color_eqb (color p) c && pt_eqb (piece_type p) t
                 | None => false end) /\
  (forall j, Z.testbit (white_occupancy B) (Z.of_nat j) =
     (j <? n) && match a j with Some p => color_eqb (color p) White | None => false end) /\
  (forall j, Z.testbit (black_occupancy B) (Z.of_nat j) =
     (j <? n) && match a j with Some p => color_eqb (color p) Black | None => false end) /\
  (forall j, Z.testbit (all_pieces B) (Z.of_nat j) =
     (j <? n) && match a j with Some _ => true | None => false end).

(* ------------------------------------------------------------------ *)
(** ** Concrete positions *)

Definition no_game : ChessGame := mkGame board_empty White 0 None 0 0 [] 0 Legal.

Definition fen_game (s : string) : ChessGame :=
  match from_fen (list_ascii_of_string s) with Some g => g | None => no_game end.

(** The start position with its hash set by [calculate_hash], as [main] does. *)
Definition start_game : ChessGame :=
  let g := fen_game "rnbqkbnr/pppppppp/8/8/8/8/PPPPPPPP/RNBQKBNR w KQkq - 0 1" in
  mkGame (chessboard g) (side_to_move g) (castling_rights g) (en_passant g)
    (halfmove_clock g) (fullmove_counter g) (game_history g) (calculate_hash g) (rule_set g).

Definition move_e2e4 : ChessMove := mkMove 12 28 None.

(** The FEN fields of the position after 1. e4 e5:
    rnbqkbnr/pppp1ppp/8/4p3/4P3/8/PPPP1PPP/RNBQKBNR w KQkq e6 0 2. *)
Definition fen_back_rank (c : Color) : list FenToken :=
  map (fun t => FPiece (mkPiece c t)) [Rook; Knight; Bishop; Queen; King; Bishop; Knight; Rook].

Definition fen_pawn_rank (c : Color) : list FenToken :=
  [FPiece (mkPiece c Pawn); FPiece (mkPiece c Pawn); FPiece (mkPiece c Pawn);
   FPiece (mkPiece c Pawn); FEmpty 1; FPiece (mkPiece c Pawn); FPiece (mkPiece c Pawn);
   FPiece (mkPiece c Pawn)].

Definition e4e5_fields : FenFields :=
  mkFenFields
    [fen_back_rank Black; fen_pawn_rank Black; [FEmpty 8];
     [FEmpty 4; FPiece (mkPiece Black Pawn); FEmpty 3];
     [FEmpty 4; FPiece (mkPiece White Pawn); FEmpty 3];
     [FEmpty 8]; fen_pawn_rank White; fen_back_rank White]
    true true true true true (Some (4, 5)) 0 2.

(** Knight and king against knight and king, Black to move and mated. *)
Definition pos_knkn_mate : ChessGame := fen_game "7k/5K1n/6N1/8/8/8/8/8 b - - 0 1".

(** King and pawn against king and pawn. *)
Definition pos_kpkp : ChessGame := fen_game "4k3/4p3/8/8/8/8/4P3/4K3 w - - 0 1".

(** King and bishop against king and bishop, the bishops on c1 and d6 (both
    dark squares). *)
Definition pos_kbkb : ChessGame := fen_game "4k3/8/3b4/8/8/8/8/2B1K3 w - - 0 1".

(** An empty board: both kings missing. *)
Definition pos_no_kings : ChessGame := fen_game "8/8/8/8/8/8/8/8 w - - 0 1".

(** A rook endgame (position 3 of the usual perft suite). *)
Definition rook_endgame : ChessGame := fen_game "8/2p5/3p4/KP5r/1R3p1k/8/4P1P1/8 w - - 0 1".

Definition rook_endgame_moves : list ChessMove :=
  map (fun '(f, t) => mkMove f t None)
    [(12, 20); (12, 28); (14, 22); (14, 30); (25, 1); (25, 9); (25, 17);
     (25, 24); (25, 26); (25, 27); (25, 28); (25, 29); (32, 24); (32, 40)].

(* ------------------------------------------------------------------ *)
(** ** Reference predicates for the properties of the code *)

(** Equality of square names. *)
Definition names_eqb (x y : list ascii) : bool :=
  if list_eq_dec ascii_dec x y then true else false.

(** Board geometry of two squares [i], [j], in files, ranks and the
    distances [file_dist] and [rank_dist]: a knight's jump, a king's step,
    the same file or rank, the same diagonal. *)
Definition knight_step (i j : nat) : bool :=
  (file_dist i j =? 1) && (rank_dist i j =? 2) || (file_dist i j =? 2) && (rank_dist i j =? 1).
Definition king_step (i j : nat) : bool :=
  negb (i =? j) && (file_dist i j <=? 1) && (rank_dist i j <=? 1).
Definition same_line (i j : nat) : bool :=
  negb (i =? j) && ((sq_file i =? sq_file j) || (sq_rank i =? sq_rank j)).
Definition same_diagonal (i j : nat) : bool :=
  negb (i =? j) && (file_dist i j =? rank_dist i j).

(** [k] lies on the segment from [i] to [j], ends excluded: its file and
    rank are between theirs and it is collinear with them. *)
Definition strictly_between (i j k : nat) : bool :=
  let zf s := Z.of_nat (sq_file s) in let zr s := Z.of_nat (sq_rank s) in
  negb (k =? i) && negb (k =? j)
  && (file_dist i k + file_dist k j =? file_dist i j)
  && (rank_dist i k + rank_dist k j =? rank_dist i j)
  && ((zf k - zf i) * (zr j - zr i) =? (zr k - zr i) * (zf j - zf i))%Z.

(** Two squares on one file, rank or diagonal. *)
Definition aligned (i j : nat) : bool :=
  (sq_file i =? sq_file j) || (sq_rank i =? sq_rank j) || (file_dist i j =? rank_dist i j).

(** The XOR of [f] over a list. *)
Definition xs {A} (l : list A) (f : A -> Z) : Z := fold_right (fun x acc => Z.lxor (f x) acc) 0%Z l.

(** A small position: white king on e1, white pawn on e2, black king on e8. *)
Definition sample_array : BoardArray :=
  fun j => if j =? 12 then Some (mkPiece White Pawn)
           else if j =? 4 then Some (mkPiece White King)
           else if j =? 60 then Some (mkPiece Black King)
           else None.

Definition sample_game : ChessGame :=
  mkGame (build_board sample_array) White 0 None 0 1 [] 0 Legal.

(* ================================================================== *)
(** * Theorems *)

(* ------------------------------------------------------------------ *)
(** ** Incremental hash after [make_move] *)

(** C1: from the start position, whose hash is set by [calculate_hash], the
    legal move e2e4 gives a position whose incrementally updated hash differs
    from [calculate_hash] of that position; the board itself is right. *)
Theorem make_move_hash_diverges :
  In move_e2e4 (generate_pseudolegal start_game) /\
  is_legal start_game move_e2e4 = Some true /\
  zobrist_hash start_game = calculate_hash start_game /\
  exists g',
    make_move start_game move_e2e4 = Some g' /\
    to_fen g' = list_ascii_of_string
      "rnbqkbnr/pppppppp/8/8/4P3/8/PPPP1PPP/RNBQKBNR b KQkq e3 0 1" /\
    zobrist_hash g' <> calculate_hash g'.
Proof.
  split; [vm_compute; tauto |].
  split; [vm_compute; reflexivity |].
  split; [reflexivity |].
  eexists; split; [vm_compute; reflexivity |].
  split; vm_compute; [reflexivity | discriminate].
Qed.

(** C2: making e2e4 from the start position and unmaking it restores the
    board, side, rights and clocks, but not the hash. *)
Theorem make_unmake_hash_not_restored :
  exists g' g'',
    make_move start_game move_e2e4 = Some g' /\
    unmake_move g' = Some g'' /\
    to_fen g'' = to_fen start_game /\
    game_history g'' = game_history start_game /\
    zobrist_hash g'' <> zobrist_hash start_game.
Proof.
  do 2 eexists; split; [vm_compute; reflexivity |].
  split; [vm_compute; reflexivity |].
  split; [vm_compute; reflexivity |].
  split; vm_compute; [reflexivity | discriminate].
Qed.

(* ------------------------------------------------------------------ *)
(** ** Occupancy of [ChessBoard::new] *)

(** C4: the board of [ChessBoard::new] is not coherent: its black occupancy
    is the white one, so the colour occupancies overlap and the black one is
    not the union of the black piece bitboards. *)
Theorem board_new_incoherent :
  occupancy_coherent board_new = false /\
  black_occupancy board_new = white_occupancy board_new /\
  black_occupancy board_new <> colour_union board_new Black.
Proof.
  split; [vm_compute; reflexivity |].
  split; [reflexivity | vm_compute; discriminate].
Qed.

(* ------------------------------------------------------------------ *)
(** ** Square colours *)

(** C8: [colour] follows the parity of the trailing zeros of the index, not
    of file + rank: b1 (file + rank = 1, odd) is White and c1 (file + rank =
    2, even) is Black, while the board's own [WHITE_SQUARES] mask holds c1
    and not b1. *)
Theorem colour_not_file_rank_parity :
  sq_file 1 + sq_rank 1 = 1 /\ colour 1 = White /\ Z.testbit WHITE_SQUARES 1 = false /\
  sq_file 2 + sq_rank 2 = 2 /\ colour 2 = Black /\ Z.testbit WHITE_SQUARES 2 = true.
Proof. vm_compute; repeat split. Qed.

(* ------------------------------------------------------------------ *)
(** ** UCI parsing *)

(** C9: [from_uci] rejects the lowercase promotion letter that [to_uci]
    writes, and panics (here [None]) on an invalid square name instead of
    returning an error. *)
Theorem from_uci_rejects_and_panics :
  from_uci (list_ascii_of_string "e7e8q") = Some (Err "Invalid promotion piece"%string) /\
  from_uci (list_ascii_of_string "e7e8Q") = Some (Ok (mkMove 52 60 (Some Queen))) /\
  from_uci (list_ascii_of_string "z9a1") = None.
Proof. vm_compute; repeat split. Qed.

(* ------------------------------------------------------------------ *)
(** ** Outcome *)

(** C6 (counterexample): KN against KN with the side to move mated has
    insufficient material by the spec's list and no legal moves, and the
    outcome is a win for White, not a draw. *)
Theorem check_order_counterexample :
  from_fen (list_ascii_of_string "7k/5K1n/6N1/8/8/8/8/8 b - - 0 1") = Some pos_knkn_mate /\
  legal_moves pos_knkn_mate = Some [] /\
  bb_count (all_pieces (chessboard pos_knkn_mate)) = 4 /\
  bb_count (get_piece_bitboard (chessboard pos_knkn_mate) White Knight) = 1 /\
  bb_count (get_piece_bitboard (chessboard pos_knkn_mate) Black Knight) = 1 /\
  check_game_state pos_knkn_mate <> Some (Finished None).
Proof.
  split; [vm_compute; reflexivity |].
  vm_compute; repeat split; discriminate.
Qed.

(** C7: the material test draws KP against KP (count 4, no bishop), which is
    not in the spec's list, and leaves KB against KB with both bishops on
    dark squares unfinished, although it is in the list; in both positions
    no earlier rule applies and there are legal moves. *)
Theorem material_draw_mismatch :
  (halfmove_clock pos_kpkp < 100)%N /\ repetition_count pos_kpkp = 0 /\
  rule_set pos_kpkp = Legal /\ legal_moves pos_kpkp <> Some [] /\
  bb_count (all_pieces (chessboard pos_kpkp)) = 4 /\
  get_piece_bitboard (chessboard pos_kpkp) White Pawn <> 0%Z /\
  check_game_state pos_kpkp = Some (Finished None) /\
  (halfmove_clock pos_kbkb < 100)%N /\ repetition_count pos_kbkb = 0 /\
  rule_set pos_kbkb = Legal /\ legal_moves pos_kbkb <> Some [] /\
  bb_count (all_pieces (chessboard pos_kbkb)) = 4 /\
  squares_of (get_piece_bitboard (chessboard pos_kbkb) White Bishop) = [2] /\
  squares_of (get_piece_bitboard (chessboard pos_kbkb) Black Bishop) = [43] /\
  Nat.even (sq_file 2 + sq_rank 2) = Nat.even (sq_file 43 + sq_rank 43) /\
  check_game_state pos_kbkb = Some Unfinished.
Proof. vm_compute; repeat split; discriminate. Qed.

(** C10 (counterexample): on the empty board neither clock rule applies and
    the Black king is missing, but the outcome is a win for Black, since the
    White king is tested first. *)
Theorem no_kings_counterexample :
  (halfmove_clock pos_no_kings < 100)%N /\ repetition_count pos_no_kings = 0 /\
  get_piece_bitboard (chessboard pos_no_kings) Black King = 0%Z /\
  check_game_state pos_no_kings = Some (Finished (Some Black)) /\
  check_game_state pos_no_kings <> Some (Finished (Some White)).
Proof. vm_compute; repeat split; discriminate. Qed.

(* ------------------------------------------------------------------ *)
(** ** Order of the outcome rules *)

Lemma pop_lsb_nonzero (b : Z) : b <> 0%Z -> exists k r, pop_lsb b = Some (k, r).
Proof.
  intro H. unfold pop_lsb, lsb_idx.
  destruct (b =? 0)%Z eqn:E; [apply Z.eqb_eq in E; contradiction |].
  eauto.
Qed.

(** C6 (amended): [check_game_state] tests, in this order and stopping at
    the first that applies: the fifty-move rule (draw), repetition (draw),
    a missing White king (Black wins), a missing Black king (White wins), the
    PseudoLegal rule set (unfinished), an empty legal-move list (the opponent
    wins if the side to move is in check, else a draw), and only then
    insufficient material. *)
Theorem check_game_state_order (g : ChessGame) :
  let b := chessboard g in
  let side := side_to_move g in
  ((100 <= halfmove_clock g)%N ->
     check_game_state g = Some (Finished None)) /\
  ((halfmove_clock g < 100)%N -> 2 <= repetition_count g ->
     check_game_state g = Some (Finished None)) /\
  ((halfmove_clock g < 100)%N -> repetition_count g < 2 ->
   get_piece_bitboard b White King = 0%Z ->
     check_game_state g = Some (Finished (Some Black))) /\
  ((halfmove_clock g < 100)%N -> repetition_count g < 2 ->
   get_piece_bitboard b White King <> 0%Z -> get_piece_bitboard b Black King = 0%Z ->
     check_game_state g = Some (Finished (Some White))) /\
  ((halfmove_clock g < 100)%N -> repetition_count g < 2 ->
   get_piece_bitboard b White King <> 0%Z -> get_piece_bitboard b Black King <> 0%Z ->
   rule_set g = PseudoLegal ->
     check_game_state g = Some Unfinished) /\
  ((halfmove_clock g < 100)%N -> repetition_count g < 2 ->
   get_piece_bitboard b White King <> 0%Z -> get_piece_bitboard b Black King <> 0%Z ->
   rule_set g = Legal -> legal_moves g = Some [] ->
   forall king_sq rest, pop_lsb (get_piece_bitboard b side King) = Some (king_sq, rest) ->
     check_game_state g =
       Some (Finished (if is_square_attacked b king_sq (opposite side)
                       then Some (opposite side) else None))) /\
  ((halfmove_clock g < 100)%N -> repetition_count g < 2 ->
   get_piece_bitboard b White King <> 0%Z -> get_piece_bitboard b Black King <> 0%Z ->
   rule_set g = Legal -> forall m l, legal_moves g = Some (m :: l) ->
     check_game_state g = Some (material_outcome b)).
Proof.
  intros b side. unfold check_game_state, bb_is_empty. fold b side.
  repeat split; intros.
  - destruct (100 <=? halfmove_clock g)%N eqn:E; [reflexivity |].
    apply N.leb_gt in E. lia.
  - destruct (100 <=? halfmove_clock g)%N eqn:E; [reflexivity |].
    destruct (2 <=? repetition_count g) eqn:E2; [reflexivity |].
    apply Nat.leb_gt in E2. lia.
  - assert (E : (100 <=? halfmove_clock g)%N = false) by (apply N.leb_gt; lia).
    assert (E2 : (2 <=? repetition_count g) = false) by (apply Nat.leb_gt; lia).
    rewrite E, E2. match goal with H : _ = 0%Z |- _ => rewrite H end. reflexivity.
  - assert (E : (100 <=? halfmove_clock g)%N = false) by (apply N.leb_gt; lia).
    assert (E2 : (2 <=? repetition_count g) = false) by (apply Nat.leb_gt; lia).
    rewrite E, E2.
    match goal with H : ?x <> 0%Z |- _ => apply Z.eqb_neq in H; rewrite H end.
    match goal with H : _ = 0%Z |- _ => rewrite H end. reflexivity.
  - assert (E : (100 <=? halfmove_clock g)%N = false) by (apply N.leb_gt; lia).
    assert (E2 : (2 <=? repetition_count g) = false) by (apply Nat.leb_gt; lia).
    rewrite E, E2.
    repeat match goal with H : ?x <> 0%Z |- _ => apply Z.eqb_neq in H; rewrite H; clear H end.
    match goal with H : rule_set g = _ |- _ => rewrite H end. reflexivity.
  - assert (E : (100 <=? halfmove_clock g)%N = false) by (apply N.leb_gt; lia).
    assert (E2 : (2 <=? repetition_count g) = false) by (apply Nat.leb_gt; lia).
    rewrite E, E2.
    repeat match goal with H : ?x <> 0%Z |- _ => apply Z.eqb_neq in H; rewrite H; clear H end.
    match goal with H : rule_set g = _ |- _ => rewrite H end.
    match goal with H : pop_lsb _ = _ |- _ => rewrite H end.
    match goal with H : legal_moves g = _ |- _ => rewrite H end.
    destruct (is_square_attacked b king_sq (opposite side)); reflexivity.
  - assert (E : (100 <=? halfmove_clock g)%N = false) by (apply N.leb_gt; lia).
    assert (E2 : (2 <=? repetition_count g) = false) by (apply Nat.leb_gt; lia).
    rewrite E, E2.
    assert (Hk : get_piece_bitboard b side King <> 0%Z)
      by (unfold side; destruct (side_to_move g); assumption).
    destruct (pop_lsb_nonzero _ Hk) as (k & r & Hp).
    repeat match goal with H : ?x <> 0%Z |- _ => apply Z.eqb_neq in H; rewrite H; clear H end.
    match goal with H : rule_set g = _ |- _ => rewrite H end.
    rewrite Hp.
    match goal with H : legal_moves g = _ |- _ => rewrite H end.
    reflexivity.
Qed.

(** C10 (amended): when neither the fifty-move rule nor repetition applies,
    a missing White king is a win for Black (whatever the Black king), and a
    present White king with a missing Black king is a win for White. *)
Theorem missing_king_outcome (g : ChessGame)
    (Hhm : (halfmove_clock g < 100)%N) (Hrep : repetition_count g < 2) :
  (get_piece_bitboard (chessboard g) White King = 0%Z ->
     check_game_state g = Some (Finished (Some Black))) /\
  (get_piece_bitboard (chessboard g) White King <> 0%Z ->
   get_piece_bitboard (chessboard g) Black King = 0%Z ->
     check_game_state g = Some (Finished (Some White))).
Proof.
  assert (E : (100 <=? halfmove_clock g)%N = false) by (apply N.leb_gt; lia).
  assert (E2 : (2 <=? repetition_count g) = false) by (apply Nat.leb_gt; lia).
  unfold check_game_state, bb_is_empty. rewrite E, E2.
  split; intros Hw.
  - rewrite Hw. reflexivity.
  - intros Hb. apply Z.eqb_neq in Hw. rewrite Hw, Hb. reflexivity.
Qed.

(** The empty board instance of [missing_king_outcome]. *)
Lemma missing_king_outcome_witness :
  (halfmove_clock pos_no_kings < 100)%N /\ repetition_count pos_no_kings < 2 /\
  check_game_state pos_no_kings = Some (Finished (Some Black)).
Proof.
  assert (H1 : (halfmove_clock pos_no_kings < 100)%N) by (vm_compute; reflexivity).
  assert (H2 : repetition_count pos_no_kings < 2) by (vm_compute; auto).
  split; [exact H1 | split; [exact H2 |]].
  apply (proj1 (missing_king_outcome pos_no_kings H1 H2)).
  vm_compute; reflexivity.
Defined.

(* ------------------------------------------------------------------ *)
(** ** The legality filter *)

Lemma retain_legal_spec (g : ChessGame) (l0 l : list ChessMove) :
  retain_legal g l0 = Some l ->
  incl l l0 /\ (forall mv, In mv l0 -> In mv l <-> is_legal g mv = Some true).
Proof.
  revert l. induction l0 as [| m r IH]; intros l H; simpl in H.
  - injection H as <-. split; [intros x Hx; exact Hx | intros mv []].
  - destruct (is_legal g m) as [keep |] eqn:Em; [| discriminate].
    destruct (retain_legal g r) as [r' |] eqn:Er; [| discriminate].
    injection H as <-.
    destruct (IH r' eq_refl) as [Hincl Hiff].
    split.
    + destruct keep; intros x Hx.
      * destruct Hx as [<- | Hx]; [left; reflexivity | right; apply Hincl, Hx].
      * right. apply Hincl, Hx.
    + intros mv [<- | Hin].
      * destruct keep; split; intro Hx; auto.
        -- left; reflexivity.
        -- pose proof (Hincl _ Hx) as Hr.
           apply (proj1 (Hiff _ Hr)) in Hx. congruence.
        -- congruence.
      * destruct keep; split; intro Hx.
        -- destruct Hx as [<- | Hx]; [exact Em | apply (Hiff _ Hin), Hx].
        -- right. apply (Hiff _ Hin), Hx.
        -- apply (Hiff _ Hin), Hx.
        -- apply (Hiff _ Hin), Hx.
Qed.

Lemma is_legal_true (g : ChessGame) (mv : ChessMove) :
  is_legal g mv = Some true <->
  exists b', apply_move (chessboard g) mv (side_to_move g) (en_passant g) = Some b' /\
    exists king_sq rest,
      pop_lsb (get_piece_bitboard b' (side_to_move g) King) = Some (king_sq, rest) /\
      is_square_attacked b' king_sq (opposite (side_to_move g)) = false.
Proof.
  unfold is_legal. split.
  - destruct (apply_move _ _ _ _) as [b' |]; [| discriminate].
    destruct (pop_lsb _) as [[k r] |] eqn:Ep; [| discriminate].
    intro H; injection H as H. exists b'. split; [reflexivity |].
    exists k, r. split; [exact Ep |]. destruct (is_square_attacked _ _ _); simpl in *; congruence.
  - intros (b' & -> & k & r & -> & Ha). rewrite Ha. reflexivity.
Qed.

Lemma make_move_board (g g' : ChessGame) (mv : ChessMove) :
  make_move g mv = Some g' ->
  apply_move (chessboard g) mv (side_to_move g) (en_passant g) = Some (chessboard g') /\
  side_to_move g' = opposite (side_to_move g).
Proof.
  unfold make_move. intro H.
  repeat match goal with
         | H : match ?x with _ => _ end = Some _ |- _ => destruct x eqn:?; try discriminate
         | H : (if ?x then _ else _) = Some _ |- _ => destruct x eqn:?; try discriminate
         | H : (let '(_, _) := ?x in _) = Some _ |- _ => destruct x eqn:?; try discriminate
         end;
  simpl in *;
  repeat match goal with
         | H : match ?x with _ => _ end = Some _ |- _ => destruct x eqn:?; try discriminate
         | H : (if ?x then _ else _) = Some _ |- _ => destruct x eqn:?; try discriminate
         end;
  injection H as <-; simpl; split; try assumption; reflexivity.
Qed.

(** C3: when the legal-move list is computed (no panic), it is a sub-list of
    the pseudo-legal moves; a pseudo-legal move is kept exactly when applying
    it gives a board on which the mover's king is not attacked by the
    opponent; and the position [make_move] reaches by a kept move has that
    board, with the mover's king not attacked. *)
Theorem legal_moves_filter (g : ChessGame) (l : list ChessMove)
    (H : legal_moves g = Some l) :
  incl l (generate_pseudolegal g) /\
  (forall mv, In mv (generate_pseudolegal g) ->
     (In mv l <->
      exists b', apply_move (chessboard g) mv (side_to_move g) (en_passant g) = Some b' /\
        exists king_sq rest,
          pop_lsb (get_piece_bitboard b' (side_to_move g) King) = Some (king_sq, rest) /\
          is_square_attacked b' king_sq (opposite (side_to_move g)) = false)) /\
  (forall mv g', In mv l -> make_move g mv = Some g' ->
     exists king_sq rest,
       pop_lsb (get_piece_bitboard (chessboard g') (side_to_move g) King) = Some (king_sq, rest) /\
       is_square_attacked (chessboard g') king_sq (opposite (side_to_move g)) = false).
Proof.
  destruct (retain_legal_spec g _ _ H) as [Hincl Hiff].
  split; [exact Hincl |]. split.
  - intros mv Hin. rewrite (Hiff mv Hin). apply is_legal_true.
  - intros mv g' Hin Hm.
    apply (Hiff mv (Hincl _ Hin)), is_legal_true in Hin.
    destruct Hin as (b' & Ha & Hk).
    destruct (make_move_board _ _ _ Hm) as [Ha' _].
    rewrite Ha in Ha'. injection Ha' as <-. exact Hk.
Qed.

(** The rook endgame instance of [legal_moves_filter]. *)
Lemma legal_moves_filter_witness :
  legal_moves rook_endgame = Some rook_endgame_moves /\
  incl rook_endgame_moves (generate_pseudolegal rook_endgame).
Proof.
  assert (H : legal_moves rook_endgame = Some rook_endgame_moves) by (vm_compute; reflexivity).
  split; [exact H | exact (proj1 (legal_moves_filter rook_endgame rook_endgame_moves H))].
Defined.

(* ------------------------------------------------------------------ *)
(** ** FEN round trip *)

(** Splitting on spaces *)

Lemma split_on_no_sep (c : ascii) (s : list ascii) :
  forallb (fun x => negb (Ascii.eqb x c)) s = true -> split_on c s = [s].
Proof.
  induction s as [| x r IH]; simpl; [reflexivity |].
  intro H. apply andb_prop in H as [Hx Hr].
  destruct (Ascii.eqb x c); [discriminate |]. rewrite (IH Hr). reflexivity.
Qed.

Lemma split_on_app (c : ascii) (a r : list ascii) :
  forallb (fun x => negb (Ascii.eqb x c)) a = true ->
  split_on c (a ++ c :: r) = a :: split_on c r.
Proof.
  induction a as [| x a' IH]; simpl; intro H.
  - rewrite Ascii.eqb_refl. reflexivity.
  - apply andb_prop in H as [Hx Hr].
    destruct (Ascii.eqb x c); [discriminate |]. rewrite (IH Hr). reflexivity.
Qed.

(** Decimal numerals *)

Lemma digit_val_digit_char (d : N) : (d < 10)%N -> digit_val (digit_char d) = Some d.
Proof.
  intro H. unfold digit_val, digit_char.
  rewrite N_ascii_embedding by lia.
  replace ((48 <=? 48 + d)%N && (48 + d <=? 57)%N) with true.
  - f_equal. lia.
  - symmetry. apply andb_true_intro. split; apply N.leb_le; lia.
Qed.

Lemma dec_aux_acc (fuel : nat) (n : N) (acc : list ascii) :
  dec_aux fuel n acc = dec_aux fuel n [] ++ acc.
Proof.
  revert n acc. induction fuel as [| f IH]; intros n acc; simpl; [reflexivity |].
  destruct (n <? 10)%N; [reflexivity |].
  rewrite (IH _ (_ :: acc)), (IH _ [_]). rewrite <- app_assoc. reflexivity.
Qed.

Lemma dec_aux_digits (fuel : nat) (n : N) :
  forallb is_digit (dec_aux fuel n []) = true.
Proof.
  revert n. induction fuel as [| f IH]; intro n; simpl; [reflexivity |].
  assert (Hd : is_digit (digit_char (n mod 10)) = true).
  { unfold is_digit. rewrite digit_val_digit_char; [reflexivity |].
    apply N.mod_lt. discriminate. }
  destruct (n <? 10)%N; simpl.
  - rewrite Hd. reflexivity.
  - rewrite dec_aux_acc, forallb_app, IH. simpl. rewrite Hd. reflexivity.
Qed.

Lemma dec_aux_S (f : nat) (n : N) (acc : list ascii) :
  dec_aux (S f) n acc =
  if (n <? 10)%N then digit_char (n mod 10) :: acc
  else dec_aux f (n / 10) (digit_char (n mod 10) :: acc).
Proof. reflexivity. Qed.

Lemma dec_aux_value (f : nat) (n : N) :
  (n < 10 ^ N.of_nat (S f))%N -> digits_value 0 (dec_aux (S f) n []) = n.
Proof.
  revert n. induction f as [| f IH]; intros n Hn.
  - simpl. replace (n <? 10)%N with true by (symmetry; apply N.ltb_lt; simpl in Hn; lia).
    unfold digits_value. simpl. rewrite digit_val_digit_char by (apply N.mod_lt; discriminate).
    rewrite N.mod_small by (simpl in Hn; lia). lia.
  - rewrite dec_aux_S. destruct (n <? 10)%N eqn:E.
    + apply N.ltb_lt in E. unfold digits_value. simpl.
      rewrite digit_val_digit_char by (apply N.mod_lt; discriminate).
      rewrite N.mod_small by lia. lia.
    + rewrite dec_aux_acc. unfold digits_value. rewrite fold_left_app.
      fold (digits_value 0 (dec_aux (S f) (n / 10) [])).
      rewrite IH.
      * simpl. rewrite digit_val_digit_char by (apply N.mod_lt; discriminate).
        pose proof (N.div_mod n 10). lia.
      * apply N.Div0.div_lt_upper_bound.
        replace (N.of_nat (S (S f))) with (N.succ (N.of_nat (S f))) in Hn by lia.
        rewrite N.pow_succ_r' in Hn. exact Hn.
Qed.

Lemma dec_aux_nonempty (fuel : nat) (n : N) : dec_aux (S fuel) n [] <> [].
Proof.
  simpl. destruct (n <? 10)%N; [discriminate |].
  rewrite dec_aux_acc. intro H. apply app_eq_nil in H. destruct H; discriminate.
Qed.

Lemma strip_plus (c : ascii) (r : list ascii) :
  is_digit c = true ->
  match c :: r with "+"%char :: r' => r' | _ => c :: r end = c :: r.
Proof.
  destruct c as [[] [] [] [] [] [] [] []]; try reflexivity.
  intro H. vm_compute in H. discriminate.
Qed.

Lemma parse_u32_dec_string (n : N) : (n < 2 ^ 32)%N -> parse_u32 (dec_string n) = Some n.
Proof.
  intro Hn. unfold parse_u32, dec_string.
  pose proof (dec_aux_digits 20 n) as Hd.
  pose proof (dec_aux_value 19 n ltac:(simpl; lia)) as Hv.
  pose proof (dec_aux_nonempty 19 n) as Hne.
  destruct (dec_aux 20 n []) as [| c r] eqn:E; [contradiction |].
  rewrite strip_plus by (simpl in Hd; apply andb_prop in Hd; tauto).
  rewrite Hd, Hv. replace (n <? 2 ^ 32)%N with true by (symmetry; apply N.ltb_lt; exact Hn).
  reflexivity.
Qed.

(** Placement parsing *)

Lemma empty_char_facts (k : nat) :
  1 <= k <= 8 ->
  Ascii.eqb (Ascii.ascii_of_nat (48 + k)) "/" = false /\
  digit_val (Ascii.ascii_of_nat (48 + k)) = Some (N.of_nat k) /\
  Ascii.eqb (Ascii.ascii_of_nat (48 + k)) " " = false /\
  dec_string (N.of_nat k) = [Ascii.ascii_of_nat (48 + k)].
Proof.
  intro H.
  assert (Hk : In k (seq 1 8)) by (apply in_seq; lia).
  simpl in Hk. repeat destruct Hk as [<- | Hk]; try contradiction; vm_compute; auto.
Qed.

Lemma letter_facts (p : ChessPiece) :
  Ascii.eqb (fen_letter p) "/" = false /\ digit_val (fen_letter p) = None /\
  piece_of_char (fen_letter p) = Some p /\ Ascii.eqb (fen_letter p) " " = false /\
  piece_char p = fen_letter p.
Proof. destruct p as [[] []]; vm_compute; auto. Qed.

Lemma expand_rank_length (ts : list FenToken) : length (expand_rank ts) = rank_width ts.
Proof.
  induction ts as [| [k | p] r IH]; simpl; [reflexivity | |].
  - rewrite length_app, repeat_length, IH. reflexivity.
  - rewrite IH. reflexivity.
Qed.

Lemma write_cells_repeat_none (a : BoardArray) (base k : nat) (r : list (option ChessPiece)) :
  write_cells a base (repeat None k ++ r) = write_cells a (base + k) r.
Proof.
  revert base. induction k as [| k IH]; intro base; simpl.
  - rewrite Nat.add_0_r. reflexivity.
  - rewrite IH. f_equal. lia.
Qed.

Lemma parse_placement_cons (c : ascii) (r : list ascii) (rank file : nat) (a : BoardArray) :
  parse_placement (c :: r) rank file a =
  if Ascii.eqb c "/" then parse_placement r (wrap8 (rank + 255)) 0 a
  else match digit_val c with
       | Some d => if (1 <=? d)%N && (d <=? 8)%N
                   then parse_placement r rank (wrap8 (file + N.to_nat d)) a
                   else None
       | None =>
         match piece_of_char c with
         | None => None
         | Some p =>
           if rank * 8 + file <? 64
           then parse_placement r rank (wrap8 (file + 1)) (arr_set a (rank * 8 + file) p)
           else None
         end
       end.
Proof. reflexivity. Qed.

Lemma parse_rank (ts : list FenToken) (rest : list ascii) (rank file : nat) (a : BoardArray) :
  forallb token_ok ts = true -> file + rank_width ts <= 8 -> rank < 8 ->
  parse_placement (render_rank ts ++ rest) rank file a =
  parse_placement rest rank (file + rank_width ts) (write_cells a (rank * 8 + file) (expand_rank ts)).
Proof.
  revert file a. induction ts as [| t ts' IH]; intros file a Hok Hw Hr.
  - rewrite Nat.add_0_r. reflexivity.
  - apply andb_prop in Hok as [Ht Hok].
    destruct t as [k | p].
    + change (rank_width (FEmpty k :: ts')) with (k + rank_width ts') in Hw |- *.
      change (expand_rank (FEmpty k :: ts')) with (repeat (@None ChessPiece) k ++ expand_rank ts').
      change (render_rank (FEmpty k :: ts') ++ rest)
        with (Ascii.ascii_of_nat (48 + k) :: (render_rank ts' ++ rest)).
      unfold token_ok in Ht. apply andb_prop in Ht as [H1 H2].
      apply Nat.leb_le in H1. apply Nat.leb_le in H2.
      destruct (empty_char_facts k (conj H1 H2)) as (Hs & Hd & _ & _).
      revert Hs Hd. generalize (Ascii.ascii_of_nat (48 + k)) as c. intros c Hs Hd.
      rewrite parse_placement_cons, Hs, Hd.
      replace ((1 <=? N.of_nat k)%N && (N.of_nat k <=? 8)%N) with true
        by (symmetry; apply andb_true_intro; split; apply N.leb_le; lia).
      rewrite Nat2N.id.
      replace (wrap8 (file + k)) with (file + k) by (unfold wrap8; rewrite Nat.mod_small; lia).
      rewrite IH by (auto; lia).
      rewrite write_cells_repeat_none.
      replace (file + k + rank_width ts') with (file + (k + rank_width ts')) by lia.
      replace (rank * 8 + (file + k)) with (rank * 8 + file + k) by lia.
      reflexivity.
    + change (rank_width (FPiece p :: ts')) with (1 + rank_width ts') in Hw |- *.
      change (expand_rank (FPiece p :: ts')) with (Some p :: expand_rank ts').
      change (render_rank (FPiece p :: ts') ++ rest) with (fen_letter p :: (render_rank ts' ++ rest)).
      destruct (letter_facts p) as (Hs & Hd & Hp & _ & _).
      rewrite parse_placement_cons, Hs, Hd, Hp.
      replace (rank * 8 + file <? 64) with true by (symmetry; apply Nat.ltb_lt; lia).
      replace (wrap8 (file + 1)) with (file + 1) by (unfold wrap8; rewrite Nat.mod_small; lia).
      rewrite IH by (auto; lia).
      replace (file + 1 + rank_width ts') with (file + (1 + rank_width ts')) by lia.
      replace (rank * 8 + (file + 1)) with (S (rank * 8 + file)) by lia.
      reflexivity.
Qed.

Lemma canonical_rank_parts (ts : list FenToken) :
  canonical_rank ts = true ->
  rank_width ts = 8 /\ forallb token_ok ts = true /\ runs_minimal ts = true.
Proof.
  unfold canonical_rank. intro H.
  apply andb_prop in H as [H H3]. apply andb_prop in H as [H1 H2].
  apply Nat.eqb_eq in H1. auto.
Qed.

Lemma parse_ranks (ranks : list (list FenToken)) (rank : nat) (a : BoardArray) :
  length ranks = S rank -> rank < 8 -> forallb canonical_rank ranks = true ->
  parse_placement (render_placement ranks) rank 0 a = Some (write_ranks a rank ranks).
Proof.
  revert rank a. induction ranks as [| ts rs IH]; intros rank a Hl Hr Hc; [discriminate |].
  simpl in Hc. apply andb_prop in Hc as [Ht Hc].
  destruct (canonical_rank_parts ts Ht) as (Hw & Hok & _).
  destruct rs as [| ts2 rs2].
  - simpl in Hl. injection Hl as <-. simpl.
    rewrite <- (app_nil_r (render_rank ts)).
    rewrite parse_rank by (auto; lia). reflexivity.
  - change (render_placement (ts :: ts2 :: rs2))
      with (render_rank ts ++ "/"%char :: render_placement (ts2 :: rs2)).
    rewrite parse_rank by (auto; lia). simpl parse_placement at 1.
    rewrite Nat.add_0_r.
    replace (wrap8 (rank + 255)) with (rank - 1).
    + rewrite IH; [reflexivity | simpl in Hl |- *; lia | lia | exact Hc].
    + simpl in Hl. unfold wrap8.
      replace (rank + 255) with ((rank - 1) + 1 * 256) by lia.
      rewrite Nat.Div0.mod_add, Nat.mod_small; lia.
Qed.

Lemma write_cells_at (cells : list (option ChessPiece)) (a : BoardArray) (base i : nat) :
  write_cells a base cells i =
  if (base <=? i) && (i <? base + length cells) then
    match nth (i - base) cells None with Some p => Some p | None => a i end
  else a i.
Proof.
  revert a base. induction cells as [| c r IH]; intros a base; simpl.
  - destruct (Nat.leb_spec base i), (Nat.ltb_spec i (base + 0)); simpl; try reflexivity; lia.
  - destruct c as [p |]; rewrite IH.
    + unfold arr_set.
      destruct (Nat.eqb_spec i base) as [-> | Hne].
      * rewrite Nat.leb_refl, Nat.sub_diag.
        destruct (Nat.leb_spec (S base) base); [lia |].
        replace (base <? base + S (length r)) with true by (symmetry; apply Nat.ltb_lt; lia).
        reflexivity.
      * destruct (Nat.leb_spec (S base) i), (Nat.leb_spec base i),
          (Nat.ltb_spec i (S base + length r)), (Nat.ltb_spec i (base + S (length r)));
          simpl; try lia; try reflexivity.
        replace (i - base) with (S (i - S base)) by lia. reflexivity.
    + destruct (Nat.eqb_spec i base) as [-> | Hne].
      * rewrite Nat.leb_refl, Nat.sub_diag.
        destruct (Nat.leb_spec (S base) base); [lia |].
        replace (base <? base + S (length r)) with true by (symmetry; apply Nat.ltb_lt; lia).
        reflexivity.
      * destruct (Nat.leb_spec (S base) i), (Nat.leb_spec base i),
          (Nat.ltb_spec i (S base + length r)), (Nat.ltb_spec i (base + S (length r)));
          simpl; try lia; try reflexivity.
        replace (i - base) with (S (i - S base)) by lia. reflexivity.
Qed.

Lemma div8_facts (i : nat) : i = 8 * (i / 8) + i mod 8 /\ i mod 8 < 8.
Proof. split; [apply Nat.div_mod; discriminate | apply Nat.mod_upper_bound; discriminate]. Qed.

Lemma write_ranks_at (ranks : list (list FenToken)) (rank : nat) (a : BoardArray) (i : nat) :
  length ranks = S rank -> (forall ts, In ts ranks -> rank_width ts = 8) ->
  write_ranks a rank ranks i =
  if i <? 8 * S rank then
    match nth (i mod 8) (expand_rank (nth (rank - i / 8) ranks [])) None with
    | Some p => Some p | None => a i end
  else a i.
Proof.
  revert rank a. induction ranks as [| ts rs IH]; intros rank a Hl Hw; [discriminate |].
  simpl write_ranks. simpl in Hl. injection Hl as Hl.
  assert (Hts : length (expand_rank ts) = 8) by (rewrite expand_rank_length; apply Hw; left; reflexivity).
  destruct (div8_facts i) as [Hi Hm].
  destruct rs as [| ts2 rs2].
  - simpl in Hl. subst rank. cbn [write_ranks]. rewrite write_cells_at, Hts.
    destruct (Nat.leb_spec (0 * 8) i), (Nat.ltb_spec i (0 * 8 + 8)), (Nat.ltb_spec i (8 * 1));
      cbn [andb]; try lia; [| reflexivity].
    rewrite Nat.sub_0_l. replace (i - 0 * 8) with (i mod 8) by lia. reflexivity.
  - rewrite IH; [| simpl in Hl |- *; lia | intros t Ht; apply Hw; right; exact Ht].
    rewrite write_cells_at, Hts. simpl in Hl.
    destruct (Nat.ltb_spec i (8 * S (rank - 1))), (Nat.ltb_spec i (8 * S rank));
      destruct (Nat.leb_spec (rank * 8) i), (Nat.ltb_spec i (rank * 8 + 8)); cbn [andb]; try lia.
    + replace (rank - i / 8) with (S (rank - 1 - i / 8)) by lia. reflexivity.
    + replace (rank - i / 8) with 0 by lia.
      replace (i - rank * 8) with (i mod 8) by lia. reflexivity.
    + reflexivity.
Qed.

(** Building the board from the array *)

Lemma sq_bb_pow (s : nat) : s < 64 -> sq_bb s = (2 ^ Z.of_nat s)%Z.
Proof. intro H. unfold sq_bb. rewrite Nat.mod_small by exact H. apply Z.shiftl_1_l. Qed.

Lemma testbit_bb_set (x : Z) (s j : nat) :
  s < 64 -> Z.testbit (bb_set x s) (Z.of_nat j) = Z.testbit x (Z.of_nat j) || (j =? s).
Proof.
  intro H. unfold bb_set. rewrite Z.lor_spec, sq_bb_pow by exact H.
  rewrite Z.pow2_bits_eqb by lia. f_equal.
  destruct (Nat.eqb_spec j s), (Z.eqb_spec (Z.of_nat s) (Z.of_nat j)); auto; lia.
Qed.

Lemma land_pow2_eqb (x : Z) (s : nat) :
  (Z.land x (2 ^ Z.of_nat s) =? 0)%Z = negb (Z.testbit x (Z.of_nat s)).
Proof.
  destruct (Z.testbit x (Z.of_nat s)) eqn:E; simpl.
  - apply Z.eqb_neq. intro H0.
    assert (Hb : Z.testbit (Z.land x (2 ^ Z.of_nat s)) (Z.of_nat s) = true).
    { rewrite Z.land_spec, E, Z.pow2_bits_true by lia. reflexivity. }
    rewrite H0, Z.testbit_0_l in Hb. discriminate.
  - apply Z.eqb_eq. apply Z.bits_inj'. intros m Hm.
    rewrite Z.land_spec, Z.testbit_0_l, Z.pow2_bits_eqb by lia.
    destruct (Z.eqb_spec (Z.of_nat s) m) as [<- | _]; [rewrite E; reflexivity | apply andb_false_r].
Qed.

Lemma bits_step (x : Z) (n : nat) (P : nat -> bool) (upd : bool) :
  n < 64 -> (forall j, Z.testbit x (Z.of_nat j) = (j <? n) && P j) -> P n = upd ->
  forall j, Z.testbit (if upd then bb_set x n else x) (Z.of_nat j) = (j <? S n) && P j.
Proof.
  intros Hn Hx HP j.
  destruct (Nat.eqb_spec j n) as [-> | Hne].
  - replace (n <? S n) with true by (symmetry; apply Nat.ltb_lt; lia).
    destruct upd.
    + rewrite testbit_bb_set, Nat.eqb_refl by exact Hn. rewrite orb_true_r. auto.
    + rewrite Hx, HP, Nat.ltb_irrefl. reflexivity.
  - replace (j <? S n) with (j <? n)
      by (destruct (Nat.ltb_spec j n), (Nat.ltb_spec j (S n)); auto; lia).
    destruct upd; [rewrite testbit_bb_set by exact Hn |]; rewrite Hx;
      [apply Nat.eqb_neq in Hne; rewrite Hne; apply orb_false_r | reflexivity].
Qed.

Lemma color_eqb_spec (a b : Color) : color_eqb a b = true <-> a = b.
Proof. destruct a, b; simpl; split; congruence. Qed.

Lemma pt_eqb_spec (a b : PieceType) : pt_eqb a b = true <-> a = b.
Proof. destruct a, b; simpl; split; congruence. Qed.

Lemma color_eqb_refl (a : Color) : color_eqb a a = true.
Proof. apply color_eqb_spec. reflexivity. Qed.

Lemma pt_eqb_refl (a : PieceType) : pt_eqb a a = true.
Proof. apply pt_eqb_spec. reflexivity. Qed.

Lemma board_matches_empty (a : BoardArray) : board_matches a 0 board_empty.
Proof. repeat split; intros; rewrite Z.testbit_0_l; reflexivity. Qed.

Lemma board_matches_step (a : BoardArray) (n : nat) (B : ChessBoard) :
  n < 64 -> board_matches a n B ->
  board_matches a (S n) (match a n with Some p => add_piece p n B | None => B end).
Proof.
  intros Hn (Hp & Hw & Hb & Ha).
  destruct (a n) as [p |] eqn:En.
  - unfold add_piece, upd_pieces. repeat split; cbn [pieces white_occupancy black_occupancy all_pieces].
    + intros c t.
      destruct (color_eqb (color p) c && pt_eqb (piece_type p) t) eqn:E.
      * apply andb_prop in E as [E1 E2]. apply color_eqb_spec in E1. apply pt_eqb_spec in E2.
        subst c t. apply (bits_step _ n _ true Hn (Hp _ _)).
        rewrite En, color_eqb_refl, pt_eqb_refl. reflexivity.
      * apply (bits_step _ n _ false Hn (Hp _ _)). rewrite En. exact E.
    + destruct (color p) eqn:Ec;
        [apply (bits_step _ n _ true Hn Hw) | apply (bits_step _ n _ false Hn Hw)];
        rewrite En, Ec; reflexivity.
    + destruct (color p) eqn:Ec;
        [apply (bits_step _ n _ false Hn Hb) | apply (bits_step _ n _ true Hn Hb)];
        rewrite En, Ec; reflexivity.
    + apply (bits_step _ n _ true Hn Ha). rewrite En. reflexivity.
  - repeat split.
    + intros c t. apply (bits_step _ n _ false Hn (Hp c t)). rewrite En. reflexivity.
    + apply (bits_step _ n _ false Hn Hw). rewrite En. reflexivity.
    + apply (bits_step _ n _ false Hn Hb). rewrite En. reflexivity.
    + apply (bits_step _ n _ false Hn Ha). rewrite En. reflexivity.
Qed.

Lemma board_matches_build (a : BoardArray) : board_matches a 64 (build_board a).
Proof.
  unfold build_board.
  assert (H : forall n, n <= 64 ->
    board_matches a n (fold_left (fun b i => match a i with Some p => add_piece p i b | None => b end)
                         (seq 0 n) board_empty)).
  { induction n as [| n IH]; intro Hn.
    - apply board_matches_empty.
    - rewrite seq_S, fold_left_app. cbn [fold_left].
      apply board_matches_step; [lia | apply IH; lia]. }
  apply H. lia.
Qed.

Lemma first_piece_found (c : Color) (pb : PieceType -> Z) (bit : Z) (t0 : PieceType) :
  (forall t, negb (Z.land (pb t) bit =? 0)%Z = pt_eqb t0 t) ->
  first_piece c pb bit all_piece_types = Some (mkPiece c t0).
Proof. intro H. destruct t0; unfold all_piece_types, first_piece; rewrite !H; reflexivity. Qed.

Lemma get_piece_at_build (a : BoardArray) (s : nat) :
  s < 64 -> get_piece_at (build_board a) s = a s.
Proof.
  intro Hs. destruct (board_matches_build a) as (Hp & Hw & Hb & Ha).
  unfold get_piece_at.
  replace (negb (s <? 64)) with false by (symmetry; apply negb_false_iff, Nat.ltb_lt; exact Hs).
  rewrite sq_bb_pow by exact Hs.
  rewrite Z.land_comm, land_pow2_eqb, Ha.
  replace (s <? 64) with true by (symmetry; apply Nat.ltb_lt; exact Hs).
  destruct (a s) as [p |] eqn:Es; [| reflexivity]. cbn [andb negb].
  rewrite land_pow2_eqb, Hw, Es.
  replace (s <? 64) with true by (symmetry; apply Nat.ltb_lt; exact Hs).
  replace (if negb (negb (true && color_eqb (color p) White)) then White else Black) with (color p)
    by (destruct (color p); reflexivity).
  rewrite (first_piece_found _ _ _ (piece_type p)).
  - destruct p; reflexivity.
  - intro t. rewrite land_pow2_eqb, Hp, Es, color_eqb_refl.
    replace (s <? 64) with true by (symmetry; apply Nat.ltb_lt; exact Hs).
    apply negb_involutive.
Qed.

(** Writing the ranks back *)

Lemma emit_fold (B : ChessBoard) (rank : nat) (cells : list (option ChessPiece)) :
  forall file fen e,
  (forall j, j < length cells -> get_piece_at B (rank * 8 + (file + j)) = nth j cells None) ->
  fold_left (fun st file =>
      let '(fen, empty) := st in
      match get_piece_at B (rank * 8 + file) with
      | Some p =>
        let fen := if 0 <? empty then fen ++ dec_string (N.of_nat empty) else fen in
        (fen ++ [piece_char p], 0)
      | None => (fen, empty + 1)
      end) (seq file (length cells)) (fen, e) = emit_cells fen e cells.
Proof.
  induction cells as [| c r IH]; intros file fen e H; [reflexivity |].
  cbn [length seq fold_left].
  assert (H0 := H 0 ltac:(cbn [length]; lia)). rewrite Nat.add_0_r in H0. rewrite H0.
  cbn [nth].
  destruct c as [p |]; cbn [emit_cells]; apply IH; intros j Hj;
    replace (S file + j) with (file + S j) by lia; apply (H (S j)); cbn [length]; lia.
Qed.

Lemma emit_repeat (fen : list ascii) (e k : nat) (r : list (option ChessPiece)) :
  emit_cells fen e (repeat None k ++ r) = emit_cells fen (e + k) r.
Proof.
  revert e. induction k as [| k IH]; intro e; cbn [repeat app].
  - rewrite Nat.add_0_r. reflexivity.
  - cbn [emit_cells]. rewrite IH. f_equal. lia.
Qed.

Lemma emit_render (ts : list FenToken) :
  forall fen, forallb token_ok ts = true -> runs_minimal ts = true ->
  (let '(f, e) := emit_cells fen 0 (expand_rank ts) in flush_empty f e) = fen ++ render_rank ts.
Proof.
  induction ts as [| t ts' IH]; intros fen Hok Hrm.
  - cbn. unfold flush_empty. cbn. rewrite app_nil_r. reflexivity.
  - apply andb_prop in Hok as [Ht Hok].
    assert (Hrm' : runs_minimal ts' = true)
      by (destruct t, ts' as [| [] ?]; cbn in Hrm |- *; auto; discriminate).
    destruct t as [k | p].
    + unfold token_ok in Ht. apply andb_prop in Ht as [H1 H2].
      apply Nat.leb_le in H1. apply Nat.leb_le in H2.
      destruct (empty_char_facts k (conj H1 H2)) as (_ & _ & _ & Hdec).
      change (expand_rank (FEmpty k :: ts')) with (repeat (@None ChessPiece) k ++ expand_rank ts').
      change (render_rank (FEmpty k :: ts')) with (Ascii.ascii_of_nat (48 + k) :: render_rank ts').
      rewrite emit_repeat. cbn [Nat.add].
      destruct ts' as [| [k2 | p] ts''].
      * cbn [expand_rank flat_map emit_cells render_rank]. unfold flush_empty.
        replace (0 <? k) with true by (symmetry; apply Nat.ltb_lt; lia).
        rewrite Hdec. reflexivity.
      * cbn in Hrm. discriminate.
      * change (expand_rank (FPiece p :: ts'')) with (Some p :: expand_rank ts'').
        cbn [emit_cells].
        specialize (IH (fen ++ [Ascii.ascii_of_nat (48 + k)]) Hok Hrm').
        change (expand_rank (FPiece p :: ts'')) with (Some p :: expand_rank ts'') in IH.
        cbn [emit_cells] in IH.
        replace (flush_empty fen k) with (fen ++ [Ascii.ascii_of_nat (48 + k)])
          by (unfold flush_empty; replace (0 <? k) with true by (symmetry; apply Nat.ltb_lt; lia);
              rewrite Hdec; reflexivity).
        replace (flush_empty (fen ++ [Ascii.ascii_of_nat (48 + k)]) 0)
          with (fen ++ [Ascii.ascii_of_nat (48 + k)]) in IH by reflexivity.
        rewrite IH. rewrite <- app_assoc. reflexivity.
    + change (expand_rank (FPiece p :: ts')) with (Some p :: expand_rank ts').
      change (render_rank (FPiece p :: ts')) with (fen_letter p :: render_rank ts').
      cbn [emit_cells].
      replace (flush_empty fen 0) with fen by reflexivity.
      rewrite IH by assumption.
      destruct (letter_facts p) as (_ & _ & _ & _ & ->).
      rewrite <- app_assoc. reflexivity.
Qed.

Lemma to_fen_rank_spec (B : ChessBoard) (rank : nat) (ts : list FenToken) (fen : list ascii) :
  canonical_rank ts = true ->
  (forall f, f < 8 -> get_piece_at B (rank * 8 + f) = nth f (expand_rank ts) None) ->
  to_fen_rank B rank fen = fen ++ render_rank ts ++ (if 0 <? rank then ["/"%char] else []).
Proof.
  intros Hc Hcells. destruct (canonical_rank_parts ts Hc) as (Hw & Hok & Hrm).
  unfold to_fen_rank.
  replace (seq 0 8) with (seq 0 (length (expand_rank ts))) by (rewrite expand_rank_length, Hw; reflexivity).
  rewrite emit_fold by (intros j Hj; apply Hcells; rewrite expand_rank_length, Hw in Hj; exact Hj).
  pose proof (emit_render ts fen Hok Hrm) as He.
  destruct (emit_cells fen 0 (expand_rank ts)) as [f e]. unfold flush_empty in He. rewrite He.
  destruct (0 <? rank); [rewrite <- app_assoc |]; rewrite ?app_nil_r; reflexivity.
Qed.

Lemma to_fen_placement (B : ChessBoard) (ranks : list (list FenToken)) :
  length ranks = 8 -> forallb canonical_rank ranks = true ->
  (forall r f, r < 8 -> f < 8 ->
     get_piece_at B (r * 8 + f) = nth f (expand_rank (nth (7 - r) ranks [])) None) ->
  fold_left (fun fen rank => to_fen_rank B rank fen) (rev (seq 0 8)) [] = render_placement ranks.
Proof.
  intros Hl Hc Hcells.
  destruct ranks as [| t7 [| t6 [| t5 [| t4 [| t3 [| t2 [| t1 [| t0 [| ? ?]]]]]]]]];
    try discriminate.
  cbn [forallb] in Hc. repeat match goal with H : _ && _ = true |- _ => apply andb_prop in H as [? H] end.
  change (rev (seq 0 8)) with [7; 6; 5; 4; 3; 2; 1; 0]. cbn [fold_left].
  rewrite (to_fen_rank_spec B 7 t7), (to_fen_rank_spec B 6 t6), (to_fen_rank_spec B 5 t5),
    (to_fen_rank_spec B 4 t4), (to_fen_rank_spec B 3 t3), (to_fen_rank_spec B 2 t2),
    (to_fen_rank_spec B 1 t1), (to_fen_rank_spec B 0 t0);
    try assumption.
  cbn [render_placement Nat.ltb Nat.leb app].
  1: repeat rewrite <- app_assoc; cbn [app]; rewrite app_nil_r; reflexivity.
  all: intros f Hf;
    match goal with |- get_piece_at _ (?r * 8 + _) = _ => apply (Hcells r f); lia end.
Qed.

(** The other fields *)

Lemma digit_not_space (x : ascii) : is_digit x = true -> negb (Ascii.eqb x " ") = true.
Proof. destruct (Ascii.eqb_spec x " ") as [-> | _]; [vm_compute; discriminate | reflexivity]. Qed.

Lemma dec_string_no_space (n : N) : forallb (fun x => negb (Ascii.eqb x " ")) (dec_string n) = true.
Proof.
  apply forallb_forall. intros x Hx. apply digit_not_space.
  exact (proj1 (forallb_forall _ _) (dec_aux_digits 20 n) x Hx).
Qed.

Lemma render_rank_no_space (ts : list FenToken) :
  forallb token_ok ts = true -> forallb (fun x => negb (Ascii.eqb x " ")) (render_rank ts) = true.
Proof.
  induction ts as [| t ts' IH]; intro Hok; [reflexivity |].
  apply andb_prop in Hok as [Ht Hok].
  change (render_rank (t :: ts')) with (token_chars t ++ render_rank ts').
  rewrite forallb_app, IH by exact Hok. rewrite andb_true_r.
  destruct t as [k | p].
  - unfold token_ok in Ht. apply andb_prop in Ht as [H1 H2].
    apply Nat.leb_le in H1. apply Nat.leb_le in H2.
    destruct (empty_char_facts k (conj H1 H2)) as (_ & _ & Hsp & _).
    change (token_chars (FEmpty k)) with [Ascii.ascii_of_nat (48 + k)].
    cbn [forallb]. rewrite Hsp. reflexivity.
  - destruct (letter_facts p) as (_ & _ & _ & Hsp & _).
    change (token_chars (FPiece p)) with [fen_letter p].
    cbn [forallb]. rewrite Hsp. reflexivity.
Qed.

Lemma render_placement_no_space (ranks : list (list FenToken)) :
  forallb canonical_rank ranks = true ->
  forallb (fun x => negb (Ascii.eqb x " ")) (render_placement ranks) = true.
Proof.
  induction ranks as [| ts rs IH]; intro Hc; [reflexivity |].
  apply andb_prop in Hc as [Ht Hc].
  destruct (canonical_rank_parts ts Ht) as (_ & Hok & _).
  destruct rs as [| ts2 rs2].
  - apply render_rank_no_space, Hok.
  - change (render_placement (ts :: ts2 :: rs2))
      with (render_rank ts ++ "/"%char :: render_placement (ts2 :: rs2)).
    rewrite forallb_app, render_rank_no_space by assumption. cbn [forallb].
    rewrite IH by assumption. reflexivity.
Qed.

Lemma castling_roundtrip (wk wq bk bq : bool) :
  castling_to_fen (castling_from_fen (render_castling wk wq bk bq)) = render_castling wk wq bk bq /\
  forallb (fun x => negb (Ascii.eqb x " ")) (render_castling wk wq bk bq) = true.
Proof. destruct wk, wq, bk, bq; vm_compute; split; reflexivity. Qed.

Lemma ep_roundtrip (ep : option (nat * nat)) :
  match ep with Some (fl, r) => (fl <? 8) && (r <? 8) | None => true end = true ->
  exists epv,
    match render_ep ep with
    | ["-"%char] => Some None
    | _ => match from_name (render_ep ep) with Some sq => Some (Some sq) | None => None end
    end = Some epv /\
    match epv with Some sq => sq_name sq | None => ["-"%char] end = render_ep ep /\
    forallb (fun x => negb (Ascii.eqb x " ")) (render_ep ep) = true.
Proof.
  destruct ep as [[fl r] |]; intro H; [| exists None; vm_compute; auto].
  apply andb_prop in H as [Hf Hr]. apply Nat.ltb_lt in Hf. apply Nat.ltb_lt in Hr.
  exists (Some (r * 8 + fl)).
  assert (Hf' : In fl (seq 0 8)) by (apply in_seq; lia).
  assert (Hr' : In r (seq 0 8)) by (apply in_seq; lia).
  clear Hf Hr. cbn [seq In] in Hf', Hr'.
  repeat destruct Hf' as [<- | Hf']; try contradiction;
    repeat destruct Hr' as [<- | Hr']; try contradiction;
    vm_compute; auto.
Qed.

Lemma placement_cells (ranks : list (list FenToken)) (r f : nat) :
  length ranks = 8 -> forallb canonical_rank ranks = true -> r < 8 -> f < 8 ->
  get_piece_at (build_board (write_ranks (fun _ => None) 7 ranks)) (r * 8 + f) =
  nth f (expand_rank (nth (7 - r) ranks [])) None.
Proof.
  intros Hl Hc Hr Hf.
  rewrite get_piece_at_build by lia.
  rewrite write_ranks_at; [| exact Hl |].
  - replace (r * 8 + f <? 8 * 8) with true by (symmetry; apply Nat.ltb_lt; lia).
    replace ((r * 8 + f) mod 8) with f
      by (apply (Nat.mod_unique _ _ r); lia).
    replace ((r * 8 + f) / 8) with r
      by (apply (Nat.div_unique _ _ _ f); lia).
    destruct (nth f _ None); reflexivity.
  - intros ts Hin. apply (proj1 (canonical_rank_parts ts (proj1 (forallb_forall _ _) Hc ts Hin))).
Qed.

(** C5: for every canonical FEN string (the rendering [render_fen] of
    fields that satisfy [canonical_fields]: eight ranks of width 8 with
    minimal runs of empty squares, castling in KQkq order or [-], a lowercase
    en-passant square or [-], decimal clocks), [from_fen] succeeds and
    [to_fen] of the resulting game gives back exactly the same string. *)
Theorem fen_roundtrip (f : FenFields) (H : canonical_fields f = true) :
  option_map to_fen (from_fen (render_fen f)) = Some (render_fen f).
Proof.
  destruct f as [ranks wtm wk wq bk bq ep hm fm].
  unfold canonical_fields in H; cbn [ff_ranks ff_ep ff_halfmove ff_fullmove] in H.
  apply andb_prop in H as [H Hfm]. apply andb_prop in H as [H Hhm].
  apply andb_prop in H as [H Hep]. apply andb_prop in H as [Hl Hc].
  apply Nat.eqb_eq in Hl. apply N.ltb_lt in Hhm. apply N.ltb_lt in Hfm.
  destruct (ep_roundtrip ep Hep) as (epv & Hepv & Hname & Hepsp).
  destruct (castling_roundtrip wk wq bk bq) as [Hcas Hcassp].
  unfold render_fen, from_fen.
  cbn [ff_ranks ff_white_to_move ff_wk ff_wq ff_bk ff_bq ff_ep ff_halfmove ff_fullmove].
  rewrite (split_on_app " " (render_placement ranks)) by (apply render_placement_no_space; exact Hc).
  rewrite (split_on_app " " [if wtm then "w"%char else "b"%char]) by (destruct wtm; reflexivity).
  rewrite (split_on_app " " (render_castling wk wq bk bq)) by exact Hcassp.
  rewrite (split_on_app " " (render_ep ep)) by exact Hepsp.
  rewrite (split_on_app " " (dec_string hm)) by apply dec_string_no_space.
  rewrite (split_on_no_sep " " (dec_string fm)) by apply dec_string_no_space.
  rewrite (parse_u32_dec_string hm Hhm), (parse_u32_dec_string fm Hfm).
  rewrite (parse_ranks ranks 7) by (auto; lia).
  rewrite Hepv. cbn [option_map]. f_equal.
  unfold to_fen.
  cbn [chessboard side_to_move castling_rights en_passant halfmove_clock fullmove_counter].
  rewrite (to_fen_placement _ ranks) by (auto; intros; apply placement_cells; auto).
  rewrite Hcas, Hname.
  destruct wtm; reflexivity.
Qed.

(** The round trip on the position after 1. e4 e5. *)
Lemma fen_roundtrip_witness :
  render_fen e4e5_fields =
    list_ascii_of_string "rnbqkbnr/pppp1ppp/8/4p3/4P3/8/PPPP1PPP/RNBQKBNR w KQkq e6 0 2" /\
  canonical_fields e4e5_fields = true /\
  option_map to_fen (from_fen (render_fen e4e5_fields)) = Some (render_fen e4e5_fields).
Proof.
  assert (H : canonical_fields e4e5_fields = true) by (vm_compute; reflexivity).
  split; [vm_compute; reflexivity |].
  split; [exact H | exact (fen_roundtrip e4e5_fields H)].
Defined.

(* ------------------------------------------------------------------ *)
(** ** Squares: names, coordinates and neighbours *)

Lemma forallb_seq_lt (P : nat -> bool) (n : nat) :
  forallb P (seq 0 n) = true -> forall i, i < n -> P i = true.
Proof.
  intros H i Hi. rewrite forallb_forall in H. apply H. apply in_seq. lia.
Qed.

Lemma to_name_from_name (s : nat) : s < 64 -> from_name (to_name s) = Some s.
Proof.
  intro Hs.
  assert (H : forallb (fun s => match from_name (to_name s) with Some t => t =? s | None => false end)
                (seq 0 64) = true) by (vm_compute; reflexivity).
  pose proof (forallb_seq_lt _ _ H s Hs) as E. cbv beta in E. revert E.
  destruct (from_name (to_name s)) as [t|]; intro E; [apply Nat.eqb_eq in E; subst; reflexivity | discriminate].
Qed.

Lemma from_name_some (name : list ascii) (s : nat) :
  from_name name = Some s -> s < 64 /\ name = to_name s.
Proof.
  destruct name as [|f [|r [|x l]]]; try discriminate.
  pose proof (ascii_N_embedding f) as Ef. pose proof (ascii_N_embedding r) as Er.
  unfold from_name.
  revert Ef Er. generalize (N_of_ascii f) (N_of_ascii r). intros fv rv Ef Er. subst f r.
  destruct ((97 <=? fv)%N && (fv <=? 104)%N && (49 <=? rv)%N && (rv <=? 56)%N) eqn:E;
    [|discriminate].
  repeat rewrite andb_true_iff in E. repeat rewrite N.leb_le in E.
  assert (Hf : fv = 97%N \/ fv = 98%N \/ fv = 99%N \/ fv = 100%N \/ fv = 101%N \/ fv = 102%N
               \/ fv = 103%N \/ fv = 104%N) by lia.
  assert (Hr : rv = 49%N \/ rv = 50%N \/ rv = 51%N \/ rv = 52%N \/ rv = 53%N \/ rv = 54%N
               \/ rv = 55%N \/ rv = 56%N) by lia.
  clear E.
  destruct Hf as [->|[->|[->|[->|[->|[->|[->| ->]]]]]]];
  destruct Hr as [->|[->|[->|[->|[->|[->|[->| ->]]]]]]];
  intro H; vm_compute in H; injection H as <-; (split; [lia | reflexivity]).
Qed.

Lemma from_name_to_name (name : list ascii) (s : ChessSquare) :
  from_name name = Some s <-> s < 64 /\ name = to_name s.
Proof.
  split; [apply from_name_some | intros [Hs ->]; apply to_name_from_name; exact Hs].
Qed.

Lemma name_is_to_name (s : ChessSquare) : s < 64 -> sq_name s = to_name s.
Proof.
  intro Hs.
  assert (H : forallb (fun s => names_eqb (sq_name s) (to_name s)) (seq 0 64) = true)
    by (vm_compute; reflexivity).
  pose proof (forallb_seq_lt _ _ H s Hs) as E. cbv beta in E. unfold names_eqb in E.
  destruct (list_eq_dec ascii_dec (sq_name s) (to_name s)); [assumption | discriminate].
Qed.

Lemma from_coords_spec (file rank : nat) (s : ChessSquare) :
  from_coords file rank = Some s <->
  file < 8 /\ rank < 8 /\ s < 64 /\ sq_file s = file /\ sq_rank s = rank.
Proof.
  unfold from_coords, sq_file, sq_rank. split.
  - destruct ((file <? 8) && (rank <? 8)) eqn:E; [|discriminate].
    apply andb_true_iff in E as [E1 E2]. apply Nat.ltb_lt in E1, E2.
    intro H; injection H as <-. repeat split; try lia.
    + symmetry; apply (Nat.mod_unique _ _ rank); lia.
    + symmetry; apply (Nat.div_unique _ _ _ file); lia.
  - intros (Hf & Hr & Hs & <- & <-).
    replace ((s mod 8 <? 8) && (s / 8 <? 8)) with true.
    + f_equal. pose proof (Nat.div_mod_eq s 8). lia.
    + symmetry. apply andb_true_iff; split; apply Nat.ltb_lt; lia.
Qed.

Lemma square_north_south (s : ChessSquare) : s < 64 ->
  square_north s = (if s <? 56 then Some (s + 8) else None) /\
  square_south s = (if 8 <=? s then Some (s - 8) else None).
Proof.
  intro Hs. unfold square_north, square_south, sq_new, wrap8. split.
  - rewrite Nat.mod_small by lia.
    destruct (s <? 56) eqn:E; [apply Nat.ltb_lt in E | apply Nat.ltb_ge in E].
    + replace (s + 8 <? 64) with true by (symmetry; apply Nat.ltb_lt; lia). reflexivity.
    + replace (s + 8 <? 64) with false by (symmetry; apply Nat.ltb_ge; lia). reflexivity.
  - destruct (8 <=? s) eqn:E; [apply Nat.leb_le in E | apply Nat.leb_gt in E].
    + replace ((s + 248) mod 256) with (s - 8) by (apply (Nat.mod_unique _ _ 1); lia).
      replace (s - 8 <? 64) with true by (symmetry; apply Nat.ltb_lt; lia). reflexivity.
    + rewrite Nat.mod_small by lia.
      replace (s + 248 <? 64) with false by (symmetry; apply Nat.ltb_ge; lia). reflexivity.
Qed.

(* ------------------------------------------------------------------ *)
(** ** Bitboard scans *)

Lemma tz_from_spec (x : Z) (fuel i : nat) :
  (exists k, i <= k < i + fuel /\ Z.testbit x (Z.of_nat k) = true) ->
  i <= tz_from x i fuel < i + fuel /\ Z.testbit x (Z.of_nat (tz_from x i fuel)) = true /\
  (forall j, i <= j < tz_from x i fuel -> Z.testbit x (Z.of_nat j) = false).
Proof.
  revert i. induction fuel as [|f IH]; intros i [k [Hk Hb]]; [lia|].
  simpl. destruct (Z.testbit x (Z.of_nat i)) eqn:Ei.
  - repeat split; try lia; exact Ei.
  - assert (k <> i) by (intro; subst; congruence).
    destruct (IH (S i)) as (H1 & H2 & H3); [exists k; split; [lia | exact Hb] |].
    repeat split; try lia; [exact H2 |].
    intros j Hj. destruct (Nat.eq_dec j i); [subst; exact Ei | apply H3; lia].
Qed.

Lemma u64_low_bit (b : Z) : (0 < b < 2 ^ 64)%Z ->
  exists k, k < 64 /\ Z.testbit b (Z.of_nat k) = true.
Proof.
  intro Hb. exists (Z.to_nat (Z.log2 b)).
  assert (0 <= Z.log2 b < 64)%Z.
  { split; [apply Z.log2_nonneg | apply Z.log2_lt_pow2; lia]. }
  split; [lia|]. rewrite Z2Nat.id by lia. apply Z.bit_log2; lia.
Qed.

Lemma lxor_pow2_sub (b : Z) (i : nat) : Z.testbit b (Z.of_nat i) = true ->
  Z.lxor b (Z.shiftl 1 (Z.of_nat i)) = (b - 2 ^ Z.of_nat i)%Z.
Proof.
  intro Hi. rewrite Z.shiftl_1_l.
  set (b' := Z.lxor b (2 ^ Z.of_nat i)).
  assert (Hl : Z.land b' (2 ^ Z.of_nat i) = 0%Z).
  { apply Z.bits_inj'. intros n Hn. rewrite Z.land_spec, Z.bits_0. unfold b'.
    rewrite Z.lxor_spec, Z.pow2_bits_eqb by lia.
    destruct (Z.eqb_spec (Z.of_nat i) n); [subst; rewrite Hi|]; reflexivity || apply andb_false_r. }
  assert (b' + 2 ^ Z.of_nat i = b)%Z.
  { rewrite Z.add_nocarry_lxor by exact Hl. unfold b'.
    rewrite Z.lxor_assoc, Z.lxor_nilpotent, Z.lxor_0_r. reflexivity. }
  lia.
Qed.

Lemma pop_lsb_lowest (b : Z) : (0 < b < 2 ^ 64)%Z ->
  exists i, pop_lsb b = Some (i, (b - 2 ^ Z.of_nat i)%Z) /\ i < 64 /\
    Z.testbit b (Z.of_nat i) = true /\
    (forall j, j < i -> Z.testbit b (Z.of_nat j) = false).
Proof.
  intro Hb. destruct (tz_from_spec b 64 0) as (H1 & H2 & H3).
  { destruct (u64_low_bit b Hb) as [k Hk]. exists k. split; [lia | apply Hk]. }
  exists (tz_from b 0 64). unfold pop_lsb, lsb_idx, trailing_zeros.
  replace (b =? 0)%Z with false by (symmetry; apply Z.eqb_neq; lia).
  rewrite lxor_pow2_sub by exact H2.
  repeat split; [lia | exact H2 | intros; apply H3; lia].
Qed.

Lemma filter_all_false {A} (f : A -> bool) (l : list A) :
  (forall x, In x l -> f x = false) -> filter f l = [].
Proof.
  induction l as [|x r IH]; intro H; [reflexivity|]. simpl.
  rewrite H by (left; reflexivity). apply IH. intros y Hy. apply H. right. exact Hy.
Qed.

Lemma testbit_lxor_pow2 (b : Z) (i j : nat) :
  Z.testbit (Z.lxor b (2 ^ Z.of_nat i)) (Z.of_nat j) = xorb (Z.testbit b (Z.of_nat j)) (i =? j).
Proof.
  rewrite Z.lxor_spec, Z.pow2_bits_eqb by lia. f_equal.
  destruct (Nat.eqb_spec i j), (Z.eqb_spec (Z.of_nat i) (Z.of_nat j)); lia || reflexivity.
Qed.

Lemma pop_all_filter (fuel : nat) : forall (b : Z) (k : nat),
  (0 <= b < 2 ^ 64)%Z -> (forall j, j < k -> Z.testbit b (Z.of_nat j) = false) ->
  64 - k <= fuel -> k <= 64 ->
  pop_all fuel b = filter (fun s => Z.testbit b (Z.of_nat s)) (seq k (64 - k)).
Proof.
  induction fuel as [|f IH]; intros b k Hb Hlow Hf Hk.
  - replace (64 - k) with 0 by lia. reflexivity.
  - destruct (Z.eq_dec b 0) as [->|Hnz].
    + rewrite filter_all_false by (intros; apply Z.testbit_0_l). reflexivity.
    + destruct (pop_lsb_lowest b) as (i & Hp & Hi & Hbi & Hbelow); [lia|].
      assert (Hki : k <= i) by (destruct (Nat.lt_ge_cases i k); [rewrite Hlow in Hbi by lia; discriminate | lia]).
      cbn [pop_all]. rewrite Hp.
      assert (Hx : Z.lxor b (2 ^ Z.of_nat i) = (b - 2 ^ Z.of_nat i)%Z)
        by (rewrite <- lxor_pow2_sub by exact Hbi; rewrite Z.shiftl_1_l; reflexivity).
      replace (64 - k) with ((i - k) + S (64 - S i)) by lia.
      rewrite seq_app, filter_app, filter_all_false.
      2: { intros x Hx'. apply in_seq in Hx'. apply Hbelow. lia. }
      replace (k + (i - k)) with i by lia. cbn [seq filter]. rewrite Hbi. cbn [app]. f_equal.
      rewrite (IH _ (S i)).
      * apply filter_ext_in. intros x Hx'. apply in_seq in Hx'.
        rewrite <- Hx, testbit_lxor_pow2.
        replace (i =? x) with false by (symmetry; apply Nat.eqb_neq; lia). apply xorb_false_r.
      * assert (H0 : (0 <= Z.lxor b (2 ^ Z.of_nat i))%Z).
        { apply Z.lxor_nonneg. split; intros _; [apply Z.pow_nonneg; lia | lia]. }
        pose proof (Z.pow_pos_nonneg 2 (Z.of_nat i)) as H1. clear -Hb Hx H0 H1. lia.
      * intros j Hj. rewrite <- Hx, testbit_lxor_pow2.
        destruct (Nat.eqb_spec i j); [subst; rewrite Hbi; reflexivity|].
        rewrite Hbelow by lia. reflexivity.
      * lia.
      * lia.
Qed.

Lemma squares_of_set_bits (b : Z) : (0 <= b < 2 ^ 64)%Z ->
  squares_of b = filter (fun s => Z.testbit b (Z.of_nat s)) (seq 0 64) /\
  length (squares_of b) = count_ones b.
Proof.
  intro Hb.
  pose proof (pop_all_filter 64 b 0 Hb ltac:(intros; lia) ltac:(lia) ltac:(lia)) as E.
  rewrite Nat.sub_0_r in E. fold (squares_of b) in E.
  split; [exact E | unfold count_ones; rewrite E; reflexivity].
Qed.

Lemma lz_from_log2 (x : Z) : (0 < x)%Z -> forall i fuel,
  Z.to_nat (Z.log2 x) <= i -> i < fuel -> lz_from x i fuel = 63 - Z.to_nat (Z.log2 x).
Proof.
  intros Hx i. induction i as [|j IH]; intros fuel Hi Hf; destruct fuel as [|f]; try lia.
  - cbn [lz_from]. replace (Z.testbit x (Z.of_nat 0)) with true; [lia|].
    symmetry. pose proof (Z.log2_nonneg x). replace (Z.of_nat 0) with (Z.log2 x) by lia. apply Z.bit_log2; lia.
  - cbn [lz_from]. destruct (Z.testbit x (Z.of_nat (S j))) eqn:E.
    + destruct (Nat.eq_dec (S j) (Z.to_nat (Z.log2 x))) as [<-|Hne]; [reflexivity|].
      rewrite Z.bits_above_log2 in E by lia. discriminate.
    + destruct (Nat.eq_dec (S j) (Z.to_nat (Z.log2 x))) as [Heq|Hne].
      * rewrite Heq, Z2Nat.id, Z.bit_log2 in E by (apply Z.log2_nonneg || lia). discriminate.
      * apply IH; lia.
Qed.

Lemma msb_square_highest (b : Z) : (0 < b < 2 ^ 64)%Z ->
  exists i, msb_square b = Some i /\ i < 64 /\ Z.testbit b (Z.of_nat i) = true /\
    (forall j, i < j -> Z.testbit b (Z.of_nat j) = false).
Proof.
  intro Hb.
  assert (HL : (0 <= Z.log2 b < 64)%Z).
  { split; [apply Z.log2_nonneg | apply Z.log2_lt_pow2; lia]. }
  exists (Z.to_nat (Z.log2 b)). unfold msb_square, leading_zeros.
  replace (b =? 0)%Z with false by (symmetry; apply Z.eqb_neq; lia).
  rewrite (lz_from_log2 b ltac:(lia) 63 64) by lia.
  repeat split.
  - f_equal. lia.
  - lia.
  - rewrite Z2Nat.id by lia. apply Z.bit_log2; lia.
  - intros j Hj. apply Z.bits_above_log2; lia.
Qed.

(* ------------------------------------------------------------------ *)
(** ** The board and the piece array *)

Lemma testbit_bb_clear (x : Z) (s j : nat) : s < 64 ->
  Z.testbit (bb_clear x s) (Z.of_nat j) = Z.testbit x (Z.of_nat j) && negb (j =? s) && (j <? 64).
Proof.
  intro Hs. unfold bb_clear, u64_not, u64_mask.
  rewrite Z.land_spec, Z.lxor_spec, sq_bb_pow, Z.pow2_bits_eqb, Z.testbit_ones_nonneg by lia.
  destruct (Nat.eqb_spec j s), (Z.eqb_spec (Z.of_nat s) (Z.of_nat j)), (Nat.ltb_spec j 64),
    (Z.ltb_spec (Z.of_nat j) 64); try lia; destruct (Z.testbit x (Z.of_nat j)); reflexivity.
Qed.

Lemma board_matches_ext (a a' : BoardArray) (n : nat) (B : ChessBoard) :
  (forall j, j < n -> a j = a' j) -> board_matches a n B -> board_matches a' n B.
Proof.
  intros E (Hp & Hw & Hb & Ha).
  assert (K : forall (f : option ChessPiece -> bool) j, (j <? n) && f (a j) = (j <? n) && f (a' j)).
  { intros f j. destruct (Nat.ltb_spec j n); [rewrite E by assumption |]; reflexivity. }
  repeat split; intros;
    [rewrite Hp | rewrite Hw | rewrite Hb | rewrite Ha];
    match goal with |- (?j <? n) && ?M = _ =>
      match eval pattern (a j) in M with ?F _ => exact (K F j) end end.
Qed.

Lemma get_piece_at_matches (a : BoardArray) (B : ChessBoard) (s : nat) :
  board_matches a 64 B -> get_piece_at B s = if s <? 64 then a s else None.
Proof.
  intros (Hp & Hw & Hb & Ha). unfold get_piece_at.
  destruct (Nat.ltb_spec s 64) as [Hs|Hs]; [|reflexivity]. cbn [negb].
  rewrite sq_bb_pow by exact Hs.
  rewrite Z.land_comm, land_pow2_eqb, Ha.
  replace (s <? 64) with true by (symmetry; apply Nat.ltb_lt; exact Hs).
  destruct (a s) as [p |] eqn:Es; [| reflexivity]. cbn [andb negb].
  rewrite land_pow2_eqb, Hw, Es.
  replace (s <? 64) with true by (symmetry; apply Nat.ltb_lt; exact Hs).
  replace (if negb (negb (true && color_eqb (color p) White)) then White else Black) with (color p)
    by (destruct (color p); reflexivity).
  rewrite (first_piece_found _ _ _ (piece_type p)).
  - destruct p; reflexivity.
  - intro t. rewrite land_pow2_eqb, Hp, Es, color_eqb_refl.
    replace (s <? 64) with true by (symmetry; apply Nat.ltb_lt; exact Hs).
    apply negb_involutive.
Qed.

Lemma eqb_piece_true (p : ChessPiece) (c : Color) (t : PieceType) :
  color_eqb (color p) c && pt_eqb (piece_type p) t = true -> c = color p /\ t = piece_type p.
Proof.
  intro E. apply andb_prop in E as [E1 E2].
  apply color_eqb_spec in E1. apply pt_eqb_spec in E2. split; congruence.
Qed.

Lemma matches_add (a : BoardArray) (B : ChessBoard) (p : ChessPiece) (s : nat) :
  board_matches a 64 B -> s < 64 -> a s = None ->
  board_matches (arr_set a s p) 64 (add_piece p s B).
Proof.
  intros (Hp & Hw & Hb & Ha) Hs Es. unfold add_piece, upd_pieces, arr_set.
  assert (Hs' : (s <? 64) = true) by (apply Nat.ltb_lt; exact Hs).
  repeat split; cbn [pieces white_occupancy black_occupancy all_pieces]; intros; cbv beta;
    [destruct (color_eqb (color p) c && pt_eqb (piece_type p) t) eqn:E;
       [destruct (eqb_piece_true _ _ _ E); subst c t |]
    | destruct (color p) eqn:E | destruct (color p) eqn:E | ];
    try rewrite testbit_bb_set by exact Hs;
    try rewrite Hp; try rewrite Hw; try rewrite Hb; try rewrite Ha;
    (destruct (Nat.eqb_spec j s) as [->|Hne];
     [rewrite ?Es, ?Hs', ?E, ?color_eqb_refl, ?pt_eqb_refl; reflexivity
     | rewrite ?orb_false_r; reflexivity]).
Qed.

Lemma matches_remove (a : BoardArray) (B : ChessBoard) (p : ChessPiece) (s : nat) :
  board_matches a 64 B -> s < 64 -> a s = Some p ->
  board_matches (arr_clear a s) 64 (remove_piece p s B).
Proof.
  intros (Hp & Hw & Hb & Ha) Hs Es. unfold remove_piece, upd_pieces, arr_clear.
  assert (Hs' : (s <? 64) = true) by (apply Nat.ltb_lt; exact Hs).
  repeat split; cbn [pieces white_occupancy black_occupancy all_pieces]; intros; cbv beta;
    [destruct (color_eqb (color p) c && pt_eqb (piece_type p) t) eqn:E;
       [destruct (eqb_piece_true _ _ _ E); subst c t |] | | | ];
    try rewrite testbit_bb_clear by exact Hs;
    try rewrite Hp; try rewrite Hw; try rewrite Hb; try rewrite Ha;
    (destruct (Nat.eqb_spec j s) as [->|Hne];
     [rewrite ?Es, ?Hs', ?E; cbn [andb negb]; rewrite ?andb_false_r; reflexivity
     | cbn [negb]; destruct (Nat.ltb_spec j 64); rewrite ?andb_true_r, ?andb_false_r;
       reflexivity]).
Qed.

Lemma ltb64 (s : nat) : s < 64 -> (s <? 64) = true.
Proof. apply Nat.ltb_lt. Qed.

Lemma matches_move (a : BoardArray) (B : ChessBoard) (p : ChessPiece) (f t : nat) :
  board_matches a 64 B -> f < 64 -> t < 64 -> f <> t -> a f = Some p -> a t = None ->
  board_matches (arr_set (arr_clear a f) t p) 64 (move_piece f t p B).
Proof.
  intros HB Hf Ht Hne Ef Et. unfold move_piece.
  apply matches_add; [apply matches_remove; assumption | exact Ht |].
  unfold arr_clear. replace (t =? f) with false by (symmetry; apply Nat.eqb_neq; congruence).
  exact Et.
Qed.

Lemma matches_apply_move (a : BoardArray) (B : ChessBoard) (mov : ChessMove) (side : Color)
    (ep : option ChessSquare) (p : ChessPiece) :
  board_matches a 64 B -> mv_from mov < 64 -> mv_to mov < 64 -> mv_from mov <> mv_to mov ->
  a (mv_from mov) = Some p ->
  ~ (piece_type p = King /\ file_dist (mv_from mov) (mv_to mov) = 2) ->
  ~ (piece_type p = Pawn /\ ep = Some (mv_to mov)) ->
  exists B', apply_move B mov side ep = Some B' /\
    board_matches (arr_set (arr_clear a (mv_from mov)) (mv_to mov)
       (match promotion mov with Some pt => mkPiece side pt | None => p end)) 64 B'.
Proof.
  destruct mov as [f t pr]; cbn [mv_from mv_to promotion].
  intros HB Hf Ht Hne Ef Hnc Hnep. unfold apply_move; cbn [mv_from mv_to promotion].
  rewrite (get_piece_at_matches a B f HB), ltb64, Ef by exact Hf.
  replace (pt_eqb (piece_type p) Pawn && opt_sq_eqb ep t) with false.
  2: { symmetry. destruct (pt_eqb (piece_type p) Pawn) eqn:E1; [|reflexivity].
       destruct ep as [e|]; [|reflexivity]. cbn [andb opt_sq_eqb].
       apply Nat.eqb_neq. intros ->. apply Hnep. split; [apply pt_eqb_spec|]; congruence. }
  replace (pt_eqb (piece_type p) King && (file_dist f t =? 2)) with false.
  2: { symmetry. destruct (pt_eqb (piece_type p) King) eqn:E1; [|reflexivity].
       apply Nat.eqb_neq. intro E2. apply Hnc. split; [apply pt_eqb_spec|]; assumption. }
  rewrite (get_piece_at_matches a B t HB), ltb64 by exact Ht.
  assert (H1 : board_matches (arr_clear a t) 64
                 (match a t with Some cap => remove_piece cap t B | None => B end)).
  { destruct (a t) as [cap|] eqn:Et; [apply matches_remove; assumption|].
    apply (board_matches_ext a); [|exact HB]. intros j _. unfold arr_clear.
    destruct (Nat.eqb_spec j t); [subst; exact Et | reflexivity]. }
  assert (H2 := matches_move _ _ p f t H1 Hf Ht Hne).
  assert (Ef' : arr_clear a t f = Some p)
    by (unfold arr_clear; replace (f =? t) with false by (symmetry; apply Nat.eqb_neq; exact Hne);
        exact Ef).
  assert (Et' : arr_clear a t t = None) by (unfold arr_clear; rewrite Nat.eqb_refl; reflexivity).
  specialize (H2 Ef' Et').
  destruct pr as [pt|]; eexists; split; [reflexivity | | reflexivity |].
  - set (A2 := arr_set (arr_clear (arr_clear a t) f) t p) in H2.
    assert (E2 : A2 t = Some p) by (unfold A2, arr_set; rewrite Nat.eqb_refl; reflexivity).
    assert (H3 := matches_remove A2 _ p t H2 Ht E2).
    assert (E3 : arr_clear A2 t t = None) by (unfold arr_clear; rewrite Nat.eqb_refl; reflexivity).
    assert (H4 := matches_add _ _ (mkPiece side pt) t H3 Ht E3).
    apply (board_matches_ext (arr_set (arr_clear A2 t) t (mkPiece side pt))); [|exact H4].
    intros j _. unfold A2, arr_set, arr_clear.
    destruct (Nat.eqb_spec j t), (Nat.eqb_spec j f); reflexivity.
  - apply (board_matches_ext (arr_set (arr_clear (arr_clear a t) f) t p)); [|exact H2].
    intros j _. unfold arr_set, arr_clear.
    destruct (Nat.eqb_spec j t), (Nat.eqb_spec j f); reflexivity.
Qed.

(* ------------------------------------------------------------------ *)
(** ** make_move and unmake_move on the board *)

Lemma matches_same_bits (a : BoardArray) (B B' : ChessBoard) :
  board_matches a 64 B -> board_matches a 64 B' ->
  (forall c t, pieces B' c t = pieces B c t) /\ white_occupancy B' = white_occupancy B /\
  black_occupancy B' = black_occupancy B /\ all_pieces B' = all_pieces B.
Proof.
  intros (Hp & Hw & Hb & Ha) (Hp' & Hw' & Hb' & Ha').
  assert (K : forall x y : Z, (forall j, Z.testbit x (Z.of_nat j) = Z.testbit y (Z.of_nat j)) -> x = y).
  { intros x y H. apply Z.bits_inj'. intros n Hn. rewrite <- (Z2Nat.id n Hn). apply H. }
  repeat split; try intros c t; apply K; intro j;
    first [rewrite Hp, Hp' | rewrite Hw, Hw' | rewrite Hb, Hb' | rewrite Ha, Ha']; reflexivity.
Qed.


(* ------------------------------------------------------------------ *)
(** ** make_move bookkeeping and castling rights *)

Lemma make_move_state (g g' : ChessGame) (mov : ChessMove) :
  make_move g mov = Some g' ->
  exists p, get_piece_at (chessboard g) (mv_from mov) = Some p /\
  side_to_move g' = opposite (side_to_move g) /\
  rule_set g' = rule_set g /\
  fullmove_counter g' = (match side_to_move g with
                         | Black => u32_inc (fullmove_counter g)
                         | White => fullmove_counter g end) /\
  halfmove_clock g' = (match piece_type p, get_piece_at (chessboard g) (mv_to mov) with
                       | Pawn, _ | _, Some _ => 0%N
                       | _, None => u32_inc (halfmove_clock g) end) /\
  (forall k, Z.testbit (castling_rights g') k = true -> Z.testbit (castling_rights g) k = true) /\
  en_passant g' = (if pt_eqb (piece_type p) Pawn && (rank_dist (mv_from mov) (mv_to mov) =? 2)
                   then from_coords (sq_file (mv_from mov))
                          ((sq_rank (mv_from mov) + sq_rank (mv_to mov)) / 2)
                   else None) /\
  exists e, game_history g' = game_history g ++ [e] /\
    e_chessboard e = chessboard g /\ e_move_made e = mov /\
    e_side_to_move e = side_to_move g /\ e_castling_rights e = castling_rights g /\
    e_en_passant e = en_passant g /\ e_halfmove_clock e = halfmove_clock g /\
    e_fullmove_counter e = fullmove_counter g /\ e_zobrist_hash e = zobrist_hash g.
Proof.
  unfold make_move. intro H.
  destruct (get_piece_at (chessboard g) (mv_from mov)) as [p|] eqn:Ep; [|discriminate].
  exists p. split; [reflexivity|].
  repeat match goal with
         | H : match ?x with _ => _ end = Some _ |- _ => destruct x eqn:?; try discriminate
         | H : (if ?x then _ else _) = Some _ |- _ => destruct x eqn:?; try discriminate
         | H : (let '(_, _) := ?x in _) = Some _ |- _ => destruct x eqn:?; try discriminate
         end;
  simpl in *;
  repeat match goal with
         | H : match ?x with _ => _ end = Some _ |- _ => destruct x eqn:?; try discriminate
         | H : (if ?x then _ else _) = Some _ |- _ => destruct x eqn:?; try discriminate
         end;
  injection H as <-; cbn [side_to_move rule_set fullmove_counter halfmove_clock castling_rights
    en_passant game_history];
  (split; [reflexivity|]); (split; [reflexivity|]); (split; [reflexivity|]);
  (split; [reflexivity|]);
  (split; [intros k; unfold cr_remove; rewrite Z.land_spec; apply andb_prop|]);
  (split; [reflexivity|]);
  eexists; (split; [reflexivity|]); repeat split.
Qed.

Lemma double_push_up (f : nat) : f < 48 ->
  (rank_dist f (f + 16) =? 2) = true /\
  from_coords (sq_file f) ((sq_rank f + sq_rank (f + 16)) / 2) = Some (f + 8).
Proof.
  intro Hf. unfold rank_dist, from_coords, sq_file, sq_rank.
  pose proof (Nat.div_mod_eq f 8). pose proof (Nat.mod_upper_bound f 8).
  assert (E : (f + 16) / 8 = f / 8 + 2).
  { replace (f + 16) with (f + 2 * 8) by lia. apply Nat.div_add. lia. }
  rewrite E. replace (f / 8 <=? f / 8 + 2) with true by (symmetry; apply Nat.leb_le; lia).
  replace (f / 8 + 2 - f / 8) with 2 by lia. split; [reflexivity|].
  replace (f / 8 + (f / 8 + 2)) with ((f / 8 + 1) * 2) by lia. rewrite Nat.div_mul by lia.
  replace ((f mod 8 <? 8) && (f / 8 + 1 <? 8)) with true.
  - f_equal. lia.
  - symmetry. apply andb_true_iff; split; apply Nat.ltb_lt; lia.
Qed.

Lemma double_push_down (t : nat) : t < 48 ->
  (rank_dist (t + 16) t =? 2) = true /\
  from_coords (sq_file (t + 16)) ((sq_rank (t + 16) + sq_rank t) / 2) = Some (t + 8).
Proof.
  intro Ht. destruct (double_push_up t Ht) as [H1 H2]. split.
  - unfold rank_dist in *. pose proof (Nat.Div0.div_le_mono t (t + 16) 8 ltac:(lia)).
    destruct (Nat.leb_spec (sq_rank (t + 16)) (sq_rank t)), (Nat.leb_spec (sq_rank t) (sq_rank (t + 16)));
      unfold sq_rank in *; apply Nat.eqb_eq in H1; apply Nat.eqb_eq; lia.
  - rewrite Nat.add_comm with (n := sq_rank (t + 16)).
    replace (sq_file (t + 16)) with (sq_file t); [exact H2|].
    unfold sq_file. replace (t + 16) with (t + 2 * 8) by lia. rewrite Nat.Div0.mod_add. reflexivity.
Qed.

Lemma castling_fen_bits (cr : Z) : (0 <= cr < 256)%Z ->
  castling_from_fen (castling_to_fen cr) = Z.land cr 15.
Proof.
  intro H.
  assert (A : forallb (fun n => Z.eqb (castling_from_fen (castling_to_fen (Z.of_nat n)))
                                      (Z.land (Z.of_nat n) 15)) (seq 0 256) = true)
    by (vm_compute; reflexivity).
  rewrite forallb_forall in A.
  specialize (A (Z.to_nat cr) ltac:(apply in_seq; lia)).
  rewrite Z2Nat.id in A by lia. apply Z.eqb_eq in A. exact A.
Qed.

Lemma cr_has_pow (x : Z) (k : nat) : cr_has x (2 ^ Z.of_nat k) = Z.testbit x (Z.of_nat k).
Proof. unfold cr_has. rewrite land_pow2_eqb. apply negb_involutive. Qed.

Lemma cr_remove_has (cr rights R : Z) :
  In R [WHITE_KINGSIDE; WHITE_QUEENSIDE; BLACK_KINGSIDE; BLACK_QUEENSIDE] ->
  cr_has (cr_remove cr rights) R = cr_has cr R && negb (cr_has rights R).
Proof.
  intro HR.
  assert (E : exists k, k < 8 /\ R = (2 ^ Z.of_nat k)%Z).
  { simpl in HR. unfold WHITE_KINGSIDE, WHITE_QUEENSIDE, BLACK_KINGSIDE, BLACK_QUEENSIDE in HR.
    destruct HR as [<-|[<-|[<-|[<-|[]]]]]; [exists 0|exists 1|exists 2|exists 3]; split; reflexivity || lia. }
  destruct E as (k & Hk & ->). rewrite !cr_has_pow. unfold cr_remove.
  rewrite Z.land_spec, Z.lxor_spec. f_equal. f_equal.
  assert (B : forallb (fun k => Z.testbit 255 (Z.of_nat k)) (seq 0 8) = true) by reflexivity.
  rewrite forallb_forall in B. rewrite (B k ltac:(apply in_seq; lia)). apply xorb_true_r.
Qed.

Lemma cr_remove_range (cr rights : Z) : (0 <= cr < 256)%Z -> (0 <= cr_remove cr rights < 256)%Z.
Proof.
  intro H. unfold cr_remove.
  assert (L : Z.land cr (Z.ones 8) = cr).
  { destruct (Z.eq_dec cr 0) as [->|Hn]; [reflexivity|].
    apply Z.land_ones_low; [lia|]. apply Z.log2_lt_pow2; lia. }
  rewrite <- L, <- Z.land_assoc, (Z.land_comm (Z.ones 8)), Z.land_assoc, Z.land_ones by lia.
  apply Z.mod_pos_bound. lia.
Qed.

Lemma make_move_pawn_ep (g g' : ChessGame) (mov : ChessMove) (p : ChessPiece) :
  make_move g mov = Some g' -> get_piece_at (chessboard g) (mv_from mov) = Some p ->
  (piece_type p = Pawn -> mv_from mov < 48 -> mv_to mov = mv_from mov + 16 ->
     en_passant g' = Some (mv_from mov + 8)) /\
  (piece_type p = Pawn -> mv_to mov < 48 -> mv_from mov = mv_to mov + 16 ->
     en_passant g' = Some (mv_to mov + 8)) /\
  (piece_type p <> Pawn \/ rank_dist (mv_from mov) (mv_to mov) <> 2 -> en_passant g' = None).
Proof.
  intros Hm Hp.
  destruct (make_move_state _ _ _ Hm) as (p' & Ep' & _ & _ & _ & _ & _ & Hep & _).
  rewrite Hp in Ep'. injection Ep' as <-. rewrite Hep.
  split; [|split].
  - intros Hpt Hf Ht. rewrite Hpt, Ht. destruct (double_push_up _ Hf) as [E1 E2].
    rewrite E1, E2. reflexivity.
  - intros Hpt Ht Hf. rewrite Hpt, Hf. destruct (double_push_down _ Ht) as [E1 E2].
    rewrite E1, E2. reflexivity.
  - intros [H|H].
    + replace (pt_eqb (piece_type p) Pawn) with false; [reflexivity|].
      symmetry. apply Bool.not_true_iff_false. intro E. apply pt_eqb_spec in E. exact (H E).
    + replace (rank_dist (mv_from mov) (mv_to mov) =? 2) with false by (symmetry; apply Nat.eqb_neq; exact H).
      rewrite andb_false_r. reflexivity.
Qed.

(* ------------------------------------------------------------------ *)
(** ** UCI strings *)

Lemma to_uci_names (m : ChessMove) : mv_from m < 64 -> mv_to m < 64 ->
  to_uci m = to_name (mv_from m) ++ to_name (mv_to m) ++
             match promotion m with
             | Some t => [match t with
                          | Queen => "q" | Rook => "r" | Bishop => "b" | Knight => "n"
                          | _ => " "
                          end%char]
             | None => []
             end.
Proof.
  intros Hf Ht. unfold to_uci. rewrite !name_is_to_name by assumption.
  rewrite app_assoc. reflexivity.
Qed.

Lemma from_uci_to_uci (m : ChessMove) : mv_from m < 64 -> mv_to m < 64 ->
  from_uci (to_uci m) =
  match promotion m with
  | None => Some (Ok m)
  | Some _ => Some (Err "Invalid promotion piece"%string)
  end.
Proof.
  intros Hf Ht. rewrite to_uci_names by assumption.
  destruct m as [f t pr]; cbn [mv_from mv_to promotion] in *.
  pose proof (to_name_from_name f Hf) as Ef. pose proof (to_name_from_name t Ht) as Et.
  unfold to_name in *. unfold from_uci.
  destruct pr as [pt|]; cbn [app length firstn skipn nth_error Nat.ltb Nat.leb Nat.eqb orb].
  - destruct pt; reflexivity.
  - rewrite Ef, Et. reflexivity.
Qed.

Lemma uci_to_move_to_uci (m : ChessMove) : mv_from m < 64 -> mv_to m < 64 ->
  uci_to_move (to_uci m) =
  match promotion m with
  | Some Pawn | Some King => Err "Invalid promotion"%string
  | _ => Ok m
  end.
Proof.
  intros Hf Ht. rewrite to_uci_names by assumption.
  destruct m as [f t pr]; cbn [mv_from mv_to promotion] in *.
  pose proof (to_name_from_name f Hf) as Ef. pose proof (to_name_from_name t Ht) as Et.
  unfold to_name in *. unfold uci_to_move.
  cbn [app length firstn skipn nth_error]. rewrite Ef, Et.
  destruct pr as [[]|]; reflexivity.
Qed.

Lemma uci_to_move_firstn5 (s : list ascii) : uci_to_move s = uci_to_move (firstn 5 s).
Proof.
  do 5 (destruct s as [|? s]; [reflexivity|]). reflexivity.
Qed.

(* ------------------------------------------------------------------ *)
(** ** Attack tables *)

Lemma forall_pairs (P : nat -> nat -> bool) :
  forallb (fun i => forallb (P i) (seq 0 64)) (seq 0 64) = true ->
  forall i j, i < 64 -> j < 64 -> P i j = true.
Proof.
  intros H i j Hi Hj. rewrite forallb_forall in H. specialize (H i ltac:(apply in_seq; lia)).
  rewrite forallb_forall in H. apply H. apply in_seq. lia.
Qed.

Lemma knight_attacks_bits (i j : nat) : i < 64 -> j < 64 ->
  Z.testbit (knight_attacks i) (Z.of_nat j) = knight_step i j.
Proof.
  intros Hi Hj. apply Bool.eqb_prop.
  refine (forall_pairs (fun i j => Bool.eqb (Z.testbit (knight_attacks i) (Z.of_nat j)) (knight_step i j)) _ i j Hi Hj).
  vm_compute. reflexivity.
Qed.

Lemma king_attacks_bits (i j : nat) : i < 64 -> j < 64 ->
  Z.testbit (king_attacks i) (Z.of_nat j) = king_step i j.
Proof.
  intros Hi Hj. apply Bool.eqb_prop.
  refine (forall_pairs (fun i j => Bool.eqb (Z.testbit (king_attacks i) (Z.of_nat j)) (king_step i j)) _ i j Hi Hj).
  vm_compute. reflexivity.
Qed.

Lemma pawn_attacks_bits (i j : nat) : i < 64 -> j < 64 ->
  Z.testbit (pawn_attacks_white i) (Z.of_nat j) = (sq_rank j =? sq_rank i + 1) && (file_dist i j =? 1) /\
  Z.testbit (pawn_attacks_black i) (Z.of_nat j) = (sq_rank j + 1 =? sq_rank i) && (file_dist i j =? 1).
Proof.
  intros Hi Hj. split; apply Bool.eqb_prop.
  - refine (forall_pairs (fun i j => Bool.eqb (Z.testbit (pawn_attacks_white i) (Z.of_nat j))
             ((sq_rank j =? sq_rank i + 1) && (file_dist i j =? 1))) _ i j Hi Hj).
    vm_compute. reflexivity.
  - refine (forall_pairs (fun i j => Bool.eqb (Z.testbit (pawn_attacks_black i) (Z.of_nat j))
             ((sq_rank j + 1 =? sq_rank i) && (file_dist i j =? 1))) _ i j Hi Hj).
    vm_compute. reflexivity.
Qed.

Lemma slider_rays_bits (i j : nat) : i < 64 -> j < 64 ->
  Z.testbit (union_all (rook_dirs i)) (Z.of_nat j) = same_line i j /\
  Z.testbit (union_all (bishop_dirs i)) (Z.of_nat j) = same_diagonal i j.
Proof.
  intros Hi Hj. split; apply Bool.eqb_prop.
  - refine (forall_pairs (fun i j => Bool.eqb (Z.testbit (union_all (rook_dirs i)) (Z.of_nat j))
             (same_line i j)) _ i j Hi Hj).
    vm_compute. reflexivity.
  - refine (forall_pairs (fun i j => Bool.eqb (Z.testbit (union_all (bishop_dirs i)) (Z.of_nat j))
             (same_diagonal i j)) _ i j Hi Hj).
    vm_compute. reflexivity.
Qed.

Lemma between_bits (i j k : nat) : i < 64 -> j < 64 -> k < 64 ->
  match BETWEEN i j with
  | None => aligned i j = false
  | Some b => aligned i j = true /\ Z.testbit b (Z.of_nat k) = strictly_between i j k
  end.
Proof.
  intros Hi Hj Hk.
  assert (A : forallb (fun i => forallb (fun j =>
                match BETWEEN i j with
                | None => negb (aligned i j)
                | Some b => aligned i j &&
                    forallb (fun k => Bool.eqb (Z.testbit b (Z.of_nat k)) (strictly_between i j k)) (seq 0 64)
                end) (seq 0 64)) (seq 0 64) = true) by (vm_compute; reflexivity).
  pose proof (forall_pairs _ A i j Hi Hj) as E. cbv beta in E.
  destruct (BETWEEN i j) as [b|].
  - apply andb_prop in E as [E1 E2]. split; [exact E1|].
    rewrite forallb_forall in E2. apply Bool.eqb_prop, E2, in_seq. lia.
  - apply negb_true_iff, E.
Qed.

(* ------------------------------------------------------------------ *)
(** ** Validity, piece characters and from_fen *)

Lemma move_eqb_spec (m n : ChessMove) : move_eqb m n = true <-> m = n.
Proof.
  destruct m as [f t p], n as [f' t' p']. unfold move_eqb. cbn [mv_from mv_to promotion].
  rewrite !andb_true_iff, !Nat.eqb_eq. split.
  - intros [[-> ->] H]. f_equal. destruct p as [x|], p' as [y|]; try discriminate; [|reflexivity].
    apply pt_eqb_spec in H. subst. reflexivity.
  - intro H. injection H as -> -> ->. split; [split; reflexivity|].
    destruct p' as [x|]; [apply pt_eqb_refl|reflexivity].
Qed.

Lemma is_valid_true (g : ChessGame) (mov : ChessMove) :
  is_valid g mov = Some true <->
  In mov (generate_pseudolegal g) /\ (rule_set g = Legal -> is_legal g mov = Some true).
Proof.
  unfold is_valid.
  assert (X : existsb (move_eqb mov) (generate_pseudolegal g) = true <-> In mov (generate_pseudolegal g)).
  { rewrite existsb_exists. split.
    - intros (x & Hx & E). apply move_eqb_spec in E. subst. exact Hx.
    - intro H. exists mov. split; [exact H|]. apply move_eqb_spec. reflexivity. }
  destruct (existsb (move_eqb mov) (generate_pseudolegal g)) eqn:E.
  - destruct (rule_set g); split; intro H.
    + split; [apply X; reflexivity|]. intros _. exact H.
    + apply H. reflexivity.
    + split; [apply X; reflexivity|]. discriminate.
    + reflexivity.
  - split; [discriminate|]. intros [H _]. apply X in H. discriminate.
Qed.

Lemma is_valid_false (g : ChessGame) (mov : ChessMove) :
  ~ In mov (generate_pseudolegal g) -> is_valid g mov = Some false.
Proof.
  intro H. unfold is_valid.
  destruct (existsb (move_eqb mov) (generate_pseudolegal g)) eqn:E; [|reflexivity].
  exfalso. apply existsb_exists in E as (x & Hx & Ex). apply move_eqb_spec in Ex. subst. exact (H Hx).
Qed.

Lemma piece_chars (t : PieceType) (c : Color) :
  pt_from_char (pt_to_char t c) = Some t /\
  color_from_char (color_to_char c) = Some c /\
  piece_of_char (pt_to_char t c) = Some (mkPiece c t) /\
  piece_char (mkPiece c t) = pt_to_char t c.
Proof. destruct t, c; repeat split; reflexivity. Qed.

Lemma pt_from_idx_spec (i : nat) (t : PieceType) : pt_from_idx i = Some t <-> pt_idx t = i.
Proof.
  split.
  - intro H. do 6 (destruct i as [|i]; [injection H as <-; reflexivity|]). discriminate.
  - intros <-. destruct t; reflexivity.
Qed.

Lemma parse_u32_bound (s : list ascii) (v : N) : parse_u32 s = Some v -> (v < 2 ^ 32)%N.
Proof.
  unfold parse_u32. destruct (match s with "+"%char :: r => r | _ => s end) as [|x r]; [discriminate|].
  destruct (forallb is_digit (x :: r)); [|discriminate].
  destruct (digits_value 0 (x :: r) <? 2 ^ 32)%N eqn:E; [|discriminate].
  intro H. injection H as <-. apply N.ltb_lt. exact E.
Qed.

Lemma castling_from_fen_range (s : list ascii) : (0 <= castling_from_fen s < 16)%Z.
Proof.
  unfold castling_from_fen.
  destruct (existsb _ s), (existsb _ s), (existsb _ s), (existsb _ s);
    (split; [apply Z.leb_le | apply Z.ltb_lt]; vm_compute; reflexivity).
Qed.

Lemma from_fen_wf (fen : list ascii) (g : ChessGame) :
  from_fen fen = Some g ->
  (exists a, board_matches a 64 (chessboard g)) /\
  game_history g = [] /\ zobrist_hash g = 0%Z /\ rule_set g = Legal /\
  (0 <= castling_rights g < 16)%Z /\
  (halfmove_clock g < 2 ^ 32)%N /\ (fullmove_counter g < 2 ^ 32)%N /\
  (forall e, en_passant g = Some e -> e < 64).
Proof.
  unfold from_fen.
  destruct (split_on " " fen) as [|bs [|ss [|cs [|es [|hs [|fs rest]]]]]]; try discriminate.
  destruct (parse_u32 hs) as [hm|] eqn:Eh; [|discriminate].
  destruct (parse_u32 fs) as [fm|] eqn:Ef; [|discriminate].
  destruct (parse_placement bs 7 0 (fun _ => None)) as [arr|]; [|discriminate].
  destruct (match es with
            | ["-"%char] => Some None
            | s => match from_name s with Some sq => Some (Some sq) | None => None end
            end) as [ep|] eqn:Ee; [|discriminate].
  intro H. injection H as <-. cbn [chessboard game_history zobrist_hash rule_set castling_rights
    halfmove_clock fullmove_counter en_passant].
  split; [exists arr; apply board_matches_build|].
  split; [reflexivity|]. split; [reflexivity|]. split; [reflexivity|].
  split; [apply castling_from_fen_range|].
  split; [exact (parse_u32_bound _ _ Eh)|]. split; [exact (parse_u32_bound _ _ Ef)|].
  intros e ->.
  destruct es as [|c1 [|c2 r]]; [| destruct c1 as [[] [] [] [] [] [] [] []] | destruct c1 as [[] [] [] [] [] [] [] []]];
    cbv iota beta in Ee; first
      [ discriminate
      | match type of Ee with context [from_name ?s] =>
          destruct (from_name s) as [x|] eqn:En; [|discriminate];
          injection Ee as ->; exact (proj1 (from_name_some _ _ En)) end ].
Qed.

(* ------------------------------------------------------------------ *)
(** ** calculate_hash *)

Lemma bits_below_64 (x : Z) :
  (forall j, 64 <= j -> Z.testbit x (Z.of_nat j) = false) -> (0 <= x < 2 ^ 64)%Z.
Proof.
  intro H.
  assert (E : Z.land x (Z.ones 64) = x).
  { apply Z.bits_inj'. intros n Hn. rewrite Z.land_spec.
    destruct (Z.ltb_spec n 64).
    - rewrite Z.ones_spec_low by lia. apply andb_true_r.
    - rewrite <- (Z2Nat.id n Hn), H by lia. reflexivity. }
  rewrite <- E, Z.land_ones by lia. apply Z.mod_pos_bound. lia.
Qed.

Lemma fold_xor {A} (F : Z -> A -> Z) (G : A -> Z) (l : list A) :
  (forall h x, F h x = Z.lxor h (G x)) -> forall h, fold_left F l h = Z.lxor h (xs l G).
Proof.
  intro HF. induction l as [|x r IH]; intro h; simpl.
  - rewrite Z.lxor_0_r. reflexivity.
  - rewrite IH, HF, Z.lxor_assoc. reflexivity.
Qed.

Lemma xs_ext {A} (l : list A) (f g : A -> Z) : (forall x, In x l -> f x = g x) -> xs l f = xs l g.
Proof.
  induction l as [|x r IH]; intro H; simpl; [reflexivity|].
  rewrite H by (left; reflexivity). f_equal. apply IH. intros y Hy. apply H. right. exact Hy.
Qed.

Lemma xs_filter {A} (P : A -> bool) (l : list A) (f : A -> Z) :
  xs (filter P l) f = xs l (fun x => if P x then f x else 0%Z).
Proof.
  induction l as [|x r IH]; simpl; [reflexivity|].
  destruct (P x); simpl; rewrite IH; [reflexivity|]. reflexivity.
Qed.

Lemma xs_lxor {A} (l : list A) (f g : A -> Z) :
  xs l (fun x => Z.lxor (f x) (g x)) = Z.lxor (xs l f) (xs l g).
Proof.
  induction l as [|x r IH]; simpl; [reflexivity|]. rewrite IH.
  rewrite <- !Z.lxor_assoc. f_equal. rewrite !Z.lxor_assoc. f_equal. apply Z.lxor_comm.
Qed.

Lemma xs_zero {A} (l : list A) : xs l (fun _ => 0%Z) = 0%Z.
Proof. induction l; simpl; [reflexivity|]. rewrite IHl. reflexivity. Qed.

Lemma xs_swap {A B} (l1 : list A) (l2 : list B) (f : A -> B -> Z) :
  xs l1 (fun x => xs l2 (fun y => f x y)) = xs l2 (fun y => xs l1 (fun x => f x y)).
Proof.
  induction l1 as [|x r IH]; simpl.
  - symmetry. apply xs_zero.
  - rewrite IH. symmetry. apply (xs_lxor l2 (fun y => f x y) (fun y => xs r (fun x0 => f x0 y))).
Qed.

Lemma calculate_hash_pieces_cancel (g : ChessGame) (a : BoardArray) :
  board_matches a 64 (chessboard g) ->
  calculate_hash g =
  let h3 := key_castling (castling_rights g) in
  let h4 := match en_passant g with Some sq => Z.lxor h3 (key_ep (sq_file sq)) | None => h3 end in
  match side_to_move g with Black => Z.lxor h4 key_side | White => h4 end.
Proof.
  intro HB. unfold calculate_hash.
  set (S := xs (seq 0 64) (fun sq => match a sq with
                                     | Some p => key_piece (color p) (piece_type p) sq
                                     | None => 0%Z end)).
  assert (H1 : fold_left (fun h sq =>
              match get_piece_at (chessboard g) sq with
              | Some p => Z.lxor h (key_piece (color p) (piece_type p) sq)
              | None => h
              end) (seq 0 64) 0%Z = S).
  { rewrite (fold_xor _ (fun sq => match get_piece_at (chessboard g) sq with
                                   | Some p => key_piece (color p) (piece_type p) sq
                                   | None => 0%Z end)).
    - rewrite Z.lxor_0_l. apply xs_ext. intros x Hx. apply in_seq in Hx.
      rewrite (get_piece_at_matches _ _ _ HB). rewrite (ltb64 x ltac:(lia)). reflexivity.
    - intros h x. destruct (get_piece_at _ x); [reflexivity|]. symmetry. apply Z.lxor_0_r. }
  rewrite H1.
  destruct HB as (Hp & _).
  rewrite (fold_xor _ (fun c => xs all_piece_types (fun t =>
              xs (squares_of (get_piece_bitboard (chessboard g) c t)) (key_piece c t)))).
  2:{ intros h c. apply fold_xor. intros h' t. apply fold_xor. reflexivity. }
  replace (xs [White; Black] _) with S.
  - rewrite Z.lxor_nilpotent. cbv zeta. rewrite Z.lxor_0_l. reflexivity.
  - assert (Sq : forall c t, squares_of (get_piece_bitboard (chessboard g) c t) =
                 filter (fun s => Z.testbit (pieces (chessboard g) c t) (Z.of_nat s)) (seq 0 64)).
    { intros c t. apply squares_of_set_bits. apply bits_below_64. intros j Hj.
      rewrite Hp. replace (j <? 64) with false by (symmetry; apply Nat.ltb_ge; exact Hj). reflexivity. }
    transitivity (xs [White; Black] (fun c => xs all_piece_types (fun t =>
      xs (seq 0 64) (fun s => if match a s with
                                 | Some p => color_eqb (color p) c && pt_eqb (piece_type p) t
                                 | None => false end then key_piece c t s else 0%Z)))).
    2:{ apply xs_ext. intros c _. apply xs_ext. intros t _. rewrite Sq, xs_filter.
        apply xs_ext. intros s Hs. apply in_seq in Hs. rewrite Hp, (ltb64 s ltac:(lia)). reflexivity. }
    rewrite (xs_ext [White; Black] _ (fun c => xs (seq 0 64) (fun s => xs all_piece_types (fun t =>
      if match a s with
         | Some p => color_eqb (color p) c && pt_eqb (piece_type p) t
         | None => false end then key_piece c t s else 0%Z))))
      by (intros c _; apply xs_swap).
    rewrite xs_swap. unfold S. apply xs_ext. intros s _.
    destruct (a s) as [[[] []]|]; cbn [xs fold_right all_piece_types color_eqb pt_eqb andb color piece_type];
      rewrite ?Z.lxor_0_l, ?Z.lxor_0_r; reflexivity.
Qed.

(* ------------------------------------------------------------------ *)
(** ** Castling squares *)

Lemma castle_clear_squares (g : ChessGame) :
  let b := chessboard g in
  let opp := opposite (side_to_move g) in
  let chk k s := negb (bb_is_set (all_pieces b) s) &&
                 negb (is_square_attacked b k opp || is_square_attacked b s opp) in
  castle_clear g 4 6 = chk 4 5 /\ castle_clear g 4 2 = chk 4 3 /\
  castle_clear g 60 62 = chk 60 61 /\ castle_clear g 60 58 = chk 60 59.
Proof.
  cbv zeta. unfold castle_clear, bb_is_set, bb_is_empty.
  replace (BETWEEN 4 6) with (Some (sq_bb 5)) by (vm_compute; reflexivity).
  replace (BETWEEN 4 2) with (Some (sq_bb 3)) by (vm_compute; reflexivity).
  replace (BETWEEN 60 62) with (Some (sq_bb 61)) by (vm_compute; reflexivity).
  replace (BETWEEN 60 58) with (Some (sq_bb 59)) by (vm_compute; reflexivity).
  replace (pop_lsb (sq_bb 5)) with (Some (5, 0%Z)) by (vm_compute; reflexivity).
  replace (pop_lsb (sq_bb 3)) with (Some (3, 0%Z)) by (vm_compute; reflexivity).
  replace (pop_lsb (sq_bb 61)) with (Some (61, 0%Z)) by (vm_compute; reflexivity).
  replace (pop_lsb (sq_bb 59)) with (Some (59, 0%Z)) by (vm_compute; reflexivity).
  rewrite !(Z.land_comm (sq_bb _)), !negb_involutive.
  repeat split; destruct (_ =? 0)%Z; reflexivity.
Qed.

(* ------------------------------------------------------------------ *)
(** ** Pseudo-legal move origins *)

Lemma in_squares_of (b : Z) (s : nat) : (0 <= b < 2 ^ 64)%Z ->
  In s (squares_of b) <-> s < 64 /\ Z.testbit b (Z.of_nat s) = true.
Proof.
  intro Hb. rewrite (proj1 (squares_of_set_bits b Hb)), filter_In, in_seq.
  split; intros [H1 H2]; (split; [lia | exact H2]).
Qed.

Lemma matches_range (a : BoardArray) (B : ChessBoard) (c : Color) (t : PieceType) :
  board_matches a 64 B -> (0 <= pieces B c t < 2 ^ 64)%Z.
Proof.
  intros (Hp & _). apply bits_below_64. intros j Hj. rewrite Hp.
  replace (j <? 64) with false by (symmetry; apply Nat.ltb_ge; exact Hj). reflexivity.
Qed.

Lemma own_square (a : BoardArray) (B : ChessBoard) (c : Color) (t : PieceType) (s : nat) :
  board_matches a 64 B -> Z.testbit (pieces B c t) (Z.of_nat s) = true -> a s = Some (mkPiece c t).
Proof.
  intros HB E. pose proof HB as (Hp & _). rewrite Hp in E.
  apply andb_prop in E as [_ E]. destruct (a s) as [p|]; [|discriminate].
  apply eqb_piece_true in E as [-> ->]. destruct p; reflexivity.
Qed.

Lemma pawn_moves_from (g : ChessGame) (opps : Z) (f : ChessSquare) (m : ChessMove) :
  In m (pawn_moves g opps f) -> mv_from m = f.
Proof.
  unfold pawn_moves. cbv zeta.
  assert (A : forall to, In m (if sq_rank f =? match side_to_move g with White => 6 | Black => 1 end
                 then map (fun t => mkMove f to (Some t)) [Queen; Rook; Bishop; Knight]
                 else [mkMove f to None]) -> mv_from m = f).
  { intros to. destruct (_ =? _); simpl; intuition (subst; reflexivity). }
  rewrite in_app_iff, in_flat_map. intros [H | (to & _ & H)]; [|exact (A to H)].
  repeat match type of H with
         | In _ (match ?x with _ => _ end) => destruct x
         | In _ (if ?x then _ else _) => destruct x
         end; simpl in H; try contradiction;
    try (apply in_app_iff in H as [H|H]);
    try exact (A _ H);
    repeat match type of H with
         | In _ (match ?x with _ => _ end) => destruct x
         | In _ (if ?x then _ else _) => destruct x
         end; simpl in H; intuition (subst; reflexivity).
Qed.

Lemma move_pusher_from (all opps : Z) (f : ChessSquare) (rb : list Z) (m : ChessMove) :
  In m (move_pusher all opps f rb) -> mv_from m = f.
Proof. unfold move_pusher. rewrite in_map_iff. intros (to & <- & _). reflexivity. Qed.

Lemma pop_lsb_bit (b : Z) (i : nat) (r : Z) : (0 <= b < 2 ^ 64)%Z ->
  pop_lsb b = Some (i, r) -> Z.testbit b (Z.of_nat i) = true.
Proof.
  intros Hb E. destruct (Z.eq_dec b 0) as [->|Hn]; [vm_compute in E; discriminate|].
  destruct (pop_lsb_lowest b ltac:(lia)) as (k & Ek & _ & Hk & _).
  rewrite E in Ek. injection Ek as -> _. exact Hk.
Qed.

Lemma generated_moves_from (g : ChessGame) (a : BoardArray) (m : ChessMove) :
  board_matches a 64 (chessboard g) -> In m (generate_pseudolegal g) ->
  (exists t, a (mv_from m) = Some (mkPiece (side_to_move g) t)) \/
  In m [mkMove 4 6 None; mkMove 4 2 None; mkMove 60 62 None; mkMove 60 58 None].
Proof.
  intros HB H. unfold generate_pseudolegal in H.
  set (side := side_to_move g) in *.
  assert (Own : forall t f, In f (squares_of (pieces (chessboard g) side t)) ->
                  a f = Some (mkPiece side t)).
  { intros t f Hf. apply in_squares_of in Hf as [_ Hf]; [|exact (matches_range _ _ _ _ HB)].
    exact (own_square _ _ _ _ _ HB Hf). }
  assert (K : forall allies, In m (king_moves g allies (pieces (chessboard g) side King)) ->
            (exists t, a (mv_from m) = Some (mkPiece side t)) \/
            In m [mkMove 4 6 None; mkMove 4 2 None; mkMove 60 62 None; mkMove 60 58 None]).
  { intros allies Hk. unfold king_moves in Hk.
    destruct (pop_lsb (pieces (chessboard g) side King)) as [[k r]|] eqn:Ep; [|contradiction].
    apply in_app_iff in Hk as [Hk|Hk].
    - left. exists King. apply in_map_iff in Hk as (to & <- & _). cbn [mv_from].
      exact (own_square _ _ _ _ _ HB (pop_lsb_bit _ _ _ (matches_range _ _ _ _ HB) Ep)).
    - right. destruct (side_to_move g);
        repeat match type of Hk with
               | In _ (_ ++ _) => apply in_app_iff in Hk as [Hk|Hk]
               | In _ (if ?x then _ else _) => destruct x
               end; simpl in Hk; intuition (subst; simpl; tauto). }
  destruct side eqn:Es; cbv zeta in H; rewrite <- Es in *;
  repeat rewrite in_app_iff in H;
  (destruct H as [H|[H|[H|[H|[H|H]]]]]; [| | | | | exact (K _ H)]).
  all: apply in_flat_map in H as (f & Hf & H); left.
  all: first
    [ exists Pawn; rewrite (pawn_moves_from _ _ _ _ H); exact (Own _ _ Hf)
    | exists Knight; apply in_map_iff in H as (to & <- & _); exact (Own _ _ Hf)
    | exists Bishop; rewrite (move_pusher_from _ _ _ _ _ H); exact (Own _ _ Hf)
    | exists Rook; rewrite (move_pusher_from _ _ _ _ _ H); exact (Own _ _ Hf)
    | exists Queen; apply in_app_iff in H as [H|H];
      rewrite (move_pusher_from _ _ _ _ _ H); exact (Own _ _ Hf) ].
Qed.

(* ================================================================== *)
(** * Further properties of the code *)

(* ------------------------------------------------------------------ *)
(** ** chess_square.rs *)

(** [ChessSquare::from_name] accepts exactly the two-character names that
    [to_name] produces for the 64 squares: a file letter a-h then a rank
    digit 1-8; every other string gives [None]. *)
Theorem square_from_name_spec (name : list ascii) (s : ChessSquare) :
  from_name name = Some s <-> s < 64 /\ name = to_name s.
Proof. exact (from_name_to_name name s). Qed.

(** On a square of the board, [name] (the [format!] of the file letter and
    the rank number) is the same string as [to_name]. *)
Theorem square_name_two_chars (s : ChessSquare) : s < 64 -> sq_name s = to_name s.
Proof. exact (name_is_to_name s). Qed.

Lemma square_name_two_chars_witness : 12 < 64 /\ sq_name 12 = to_name 12.
Proof. split; [lia | apply (square_name_two_chars 12); lia]. Defined.

(** [from_coords file rank] succeeds exactly for a file and a rank below 8,
    and then gives the square with that file and rank. *)
Theorem square_from_coords_spec (file rank : nat) (s : ChessSquare) :
  from_coords file rank = Some s <->
  file < 8 /\ rank < 8 /\ s < 64 /\ sq_file s = file /\ sq_rank s = rank.
Proof. exact (from_coords_spec file rank s). Qed.

(** [square_north] adds 8 below rank 8 and gives [None] on rank 8;
    [square_south] subtracts 8 above rank 1 and gives [None] on rank 1 (the
    [u8] wrap-around lands outside the board). *)
Theorem square_north_south_edges (s : ChessSquare) : s < 64 ->
  square_north s = (if s <? 56 then Some (s + 8) else None) /\
  square_south s = (if 8 <=? s then Some (s - 8) else None).
Proof. exact (square_north_south s). Qed.

Lemma square_north_south_edges_witness :
  60 < 64 /\ square_north 60 = (if 60 <? 56 then Some (60 + 8) else None) /\
  square_south 60 = (if 8 <=? 60 then Some (60 - 8) else None).
Proof. split; [lia | apply (square_north_south_edges 60); lia]. Defined.

(* ------------------------------------------------------------------ *)
(** ** bitboard.rs *)

(** On a non-zero [u64], [pop_lsb] returns the lowest set bit and clears
    exactly that bit. *)
Theorem pop_lsb_takes_lowest (b : Z) : (0 < b < 2 ^ 64)%Z ->
  exists i, pop_lsb b = Some (i, (b - 2 ^ Z.of_nat i)%Z) /\ i < 64 /\
    Z.testbit b (Z.of_nat i) = true /\
    (forall j, j < i -> Z.testbit b (Z.of_nat j) = false).
Proof. exact (pop_lsb_lowest b). Qed.

Lemma pop_lsb_takes_lowest_witness :
  (0 < 40 < 2 ^ 64)%Z /\
  exists i, pop_lsb 40 = Some (i, (40 - 2 ^ Z.of_nat i)%Z) /\ i < 64 /\
    Z.testbit 40 (Z.of_nat i) = true /\
    (forall j, j < i -> Z.testbit 40 (Z.of_nat j) = false).
Proof.
  assert (H : (0 < 40 < 2 ^ 64)%Z) by lia.
  split; [exact H | exact (pop_lsb_takes_lowest 40 H)].
Defined.

(** The [while let Some(sq) = bb.pop_lsb()] loop visits the set bits of a
    [u64] in increasing order, and visits [count_ones] squares. *)
Theorem squares_of_lists_set_bits (b : Z) : (0 <= b < 2 ^ 64)%Z ->
  squares_of b = filter (fun s => Z.testbit b (Z.of_nat s)) (seq 0 64) /\
  length (squares_of b) = count_ones b.
Proof. exact (squares_of_set_bits b). Qed.

Lemma squares_of_lists_set_bits_witness :
  (0 <= 40 < 2 ^ 64)%Z /\
  squares_of 40 = filter (fun s => Z.testbit 40 (Z.of_nat s)) (seq 0 64) /\
  length (squares_of 40) = count_ones 40.
Proof.
  assert (H : (0 <= 40 < 2 ^ 64)%Z) by lia.
  split; [exact H | exact (squares_of_lists_set_bits 40 H)].
Defined.

(** On a non-zero [u64], [msb_square] returns the highest set bit. *)
Theorem msb_square_takes_highest (b : Z) : (0 < b < 2 ^ 64)%Z ->
  exists i, msb_square b = Some i /\ i < 64 /\ Z.testbit b (Z.of_nat i) = true /\
    (forall j, i < j -> Z.testbit b (Z.of_nat j) = false).
Proof. exact (msb_square_highest b). Qed.

Lemma msb_square_takes_highest_witness :
  (0 < 40 < 2 ^ 64)%Z /\
  exists i, msb_square 40 = Some i /\ i < 64 /\ Z.testbit 40 (Z.of_nat i) = true /\
    (forall j, i < j -> Z.testbit 40 (Z.of_nat j) = false).
Proof.
  assert (H : (0 < 40 < 2 ^ 64)%Z) by lia.
  split; [exact H | exact (msb_square_takes_highest 40 H)].
Defined.

(* ------------------------------------------------------------------ *)
(** ** chess_board.rs: the board and its piece array *)

(** On a board whose bitboards represent a piece array, [get_piece_at]
    reads the array on the 64 squares and gives [None] off the board. *)
Theorem get_piece_at_reads_array (a : BoardArray) (B : ChessBoard) (s : nat) :
  board_matches a 64 B -> get_piece_at B s = if s <? 64 then a s else None.
Proof. exact (get_piece_at_matches a B s). Qed.

Lemma get_piece_at_reads_array_witness :
  board_matches sample_array 64 (build_board sample_array) /\
  get_piece_at (build_board sample_array) 12 = (if 12 <? 64 then sample_array 12 else None).
Proof.
  pose proof (board_matches_build sample_array) as H.
  split; [exact H | exact (get_piece_at_reads_array _ _ 12 H)].
Defined.

(** [add_piece] on an empty square keeps the board a representation of the
    array: the piece's bitboard, its colour's occupancy and [all_pieces]
    gain that square. *)
Theorem add_piece_represents (a : BoardArray) (B : ChessBoard) (p : ChessPiece) (s : nat) :
  board_matches a 64 B -> s < 64 -> a s = None ->
  board_matches (arr_set a s p) 64 (add_piece p s B).
Proof. exact (matches_add a B p s). Qed.

Lemma add_piece_represents_witness :
  board_matches (arr_set sample_array 28 (mkPiece White Knight)) 64
    (add_piece (mkPiece White Knight) 28 (build_board sample_array)).
Proof.
  exact (add_piece_represents _ _ _ 28 (board_matches_build sample_array) ltac:(lia) eq_refl).
Defined.

(** [remove_piece] of the piece standing on a square keeps the board a
    representation of the array with that square emptied. *)
Theorem remove_piece_represents (a : BoardArray) (B : ChessBoard) (p : ChessPiece) (s : nat) :
  board_matches a 64 B -> s < 64 -> a s = Some p ->
  board_matches (arr_clear a s) 64 (remove_piece p s B).
Proof. exact (matches_remove a B p s). Qed.

Lemma remove_piece_represents_witness :
  board_matches (arr_clear sample_array 12) 64
    (remove_piece (mkPiece White Pawn) 12 (build_board sample_array)).
Proof.
  exact (remove_piece_represents _ _ _ 12 (board_matches_build sample_array) ltac:(lia) eq_refl).
Defined.

(** [move_piece] from an occupied square to an empty one keeps the board a
    representation of the array with the piece moved. *)
Theorem move_piece_represents (a : BoardArray) (B : ChessBoard) (p : ChessPiece) (f t : nat) :
  board_matches a 64 B -> f < 64 -> t < 64 -> f <> t -> a f = Some p -> a t = None ->
  board_matches (arr_set (arr_clear a f) t p) 64 (move_piece f t p B).
Proof. exact (matches_move a B p f t). Qed.

Lemma move_piece_represents_witness :
  board_matches (arr_set (arr_clear sample_array 12) 28 (mkPiece White Pawn)) 64
    (move_piece 12 28 (mkPiece White Pawn) (build_board sample_array)).
Proof.
  exact (move_piece_represents _ _ _ 12 28 (board_matches_build sample_array)
           ltac:(lia) ltac:(lia) ltac:(lia) eq_refl eq_refl).
Defined.

(** [apply_move] of a move that is neither castling nor en passant, from an
    occupied square to another square, succeeds and gives a board that
    represents the array with the origin emptied and the destination holding
    the moving piece, or the promotion piece of the mover's colour. A piece
    on the destination is captured. *)
Theorem apply_move_represents (a : BoardArray) (B : ChessBoard) (mov : ChessMove) (side : Color)
    (ep : option ChessSquare) (p : ChessPiece) :
  board_matches a 64 B -> mv_from mov < 64 -> mv_to mov < 64 -> mv_from mov <> mv_to mov ->
  a (mv_from mov) = Some p ->
  ~ (piece_type p = King /\ file_dist (mv_from mov) (mv_to mov) = 2) ->
  ~ (piece_type p = Pawn /\ ep = Some (mv_to mov)) ->
  exists B', apply_move B mov side ep = Some B' /\
    board_matches (arr_set (arr_clear a (mv_from mov)) (mv_to mov)
       (match promotion mov with Some pt => mkPiece side pt | None => p end)) 64 B'.
Proof. exact (matches_apply_move a B mov side ep p). Qed.

Lemma apply_move_represents_witness :
  exists B', apply_move (build_board sample_array) move_e2e4 White None = Some B' /\
    board_matches (arr_set (arr_clear sample_array 12) 28 (mkPiece White Pawn)) 64 B'.
Proof.
  exact (apply_move_represents _ _ move_e2e4 White None (mkPiece White Pawn)
           (board_matches_build sample_array) ltac:(cbn; lia) ltac:(cbn; lia) ltac:(cbn; lia)
           eq_refl ltac:(intros [H _]; discriminate) ltac:(intros [_ H]; discriminate)).
Defined.

(* ------------------------------------------------------------------ *)
(** ** chess_game.rs: make_move and unmake_move *)



(** When [make_move] succeeds, the origin held a piece; the side to move
    flips; the rule set is kept; the fullmove counter grows by one after a
    Black move only; the halfmove clock is reset by a pawn move or a capture
    and grows by one otherwise; castling rights are only ever cleared; the
    en-passant square is set only by a pawn moving two ranks. One history
    entry is pushed, holding the previous board, the move, the side, and the
    previous rights, en-passant square, clocks and hash. *)
Theorem make_move_bookkeeping (g g' : ChessGame) (mov : ChessMove) :
  make_move g mov = Some g' ->
  exists p, get_piece_at (chessboard g) (mv_from mov) = Some p /\
  side_to_move g' = opposite (side_to_move g) /\
  rule_set g' = rule_set g /\
  fullmove_counter g' = (match side_to_move g with
                         | Black => u32_inc (fullmove_counter g)
                         | White => fullmove_counter g end) /\
  halfmove_clock g' = (match piece_type p, get_piece_at (chessboard g) (mv_to mov) with
                       | Pawn, _ | _, Some _ => 0%N
                       | _, None => u32_inc (halfmove_clock g) end) /\
  (forall k, Z.testbit (castling_rights g') k = true -> Z.testbit (castling_rights g) k = true) /\
  en_passant g' = (if pt_eqb (piece_type p) Pawn && (rank_dist (mv_from mov) (mv_to mov) =? 2)
                   then from_coords (sq_file (mv_from mov))
                          ((sq_rank (mv_from mov) + sq_rank (mv_to mov)) / 2)
                   else None) /\
  exists e, game_history g' = game_history g ++ [e] /\
    e_chessboard e = chessboard g /\ e_move_made e = mov /\
    e_side_to_move e = side_to_move g /\ e_castling_rights e = castling_rights g /\
    e_en_passant e = en_passant g /\ e_halfmove_clock e = halfmove_clock g /\
    e_fullmove_counter e = fullmove_counter g /\ e_zobrist_hash e = zobrist_hash g.
Proof. exact (make_move_state g g' mov). Qed.

Lemma make_move_bookkeeping_witness :
  exists g', make_move sample_game move_e2e4 = Some g' /\
    side_to_move g' = Black /\ length (game_history g') = 1.
Proof.
  destruct (make_move sample_game move_e2e4) as [g'|] eqn:E; [|vm_compute in E; discriminate].
  exists g'. split; [reflexivity|].
  destruct (make_move_bookkeeping _ _ _ E) as (p & _ & Hs & _ & _ & _ & _ & _ & e & Hh & _).
  rewrite Hs, Hh. split; reflexivity.
Defined.

(** After a pawn's two-square advance the en-passant square is the square
    it passed over; after any other move there is none. *)
Theorem make_move_en_passant_square (g g' : ChessGame) (mov : ChessMove) (p : ChessPiece) :
  make_move g mov = Some g' -> get_piece_at (chessboard g) (mv_from mov) = Some p ->
  (piece_type p = Pawn -> mv_from mov < 48 -> mv_to mov = mv_from mov + 16 ->
     en_passant g' = Some (mv_from mov + 8)) /\
  (piece_type p = Pawn -> mv_to mov < 48 -> mv_from mov = mv_to mov + 16 ->
     en_passant g' = Some (mv_to mov + 8)) /\
  (piece_type p <> Pawn \/ rank_dist (mv_from mov) (mv_to mov) <> 2 -> en_passant g' = None).
Proof. exact (make_move_pawn_ep g g' mov p). Qed.

Lemma make_move_en_passant_square_witness :
  exists g', make_move sample_game move_e2e4 = Some g' /\ en_passant g' = Some 20.
Proof.
  destruct (make_move sample_game move_e2e4) as [g'|] eqn:E; [|vm_compute in E; discriminate].
  exists g'. split; [reflexivity|].
  exact (proj1 (make_move_en_passant_square _ _ _ (mkPiece White Pawn) E
                  ltac:(vm_compute; reflexivity)) eq_refl ltac:(cbn; lia) eq_refl).
Defined.

(* ------------------------------------------------------------------ *)
(** ** castling.rs *)

(** For any [u8] of rights, [to_fen] then [from_fen] keeps the four
    castling bits and drops the four unused high bits. *)
Theorem castling_fen_roundtrip_bits (cr : Z) : (0 <= cr < 256)%Z ->
  castling_from_fen (castling_to_fen cr) = Z.land cr 15.
Proof. exact (castling_fen_bits cr). Qed.

Lemma castling_fen_roundtrip_bits_witness :
  (0 <= 22 < 256)%Z /\ castling_from_fen (castling_to_fen 22) = Z.land 22 15.
Proof.
  assert (H : (0 <= 22 < 256)%Z) by lia.
  split; [exact H | exact (castling_fen_roundtrip_bits 22 H)].
Defined.

(** [remove] clears exactly the given rights: each of the four rights is
    kept when it was held and not removed. On a [u8] the result stays a
    [u8]. *)
Theorem castling_remove_clears (cr rights : Z) :
  (forall R, In R [WHITE_KINGSIDE; WHITE_QUEENSIDE; BLACK_KINGSIDE; BLACK_QUEENSIDE] ->
     cr_has (cr_remove cr rights) R = cr_has cr R && negb (cr_has rights R)) /\
  ((0 <= cr < 256)%Z -> (0 <= cr_remove cr rights < 256)%Z).
Proof.
  split; [intros R HR; exact (cr_remove_has cr rights R HR) | exact (cr_remove_range cr rights)].
Qed.

(* ------------------------------------------------------------------ *)
(** ** UCI strings: chess_move.rs and [uci_to_move] *)

(** [from_uci] reads back what [to_uci] writes when there is no promotion;
    with a promotion it rejects the string, because [to_uci] writes a
    lowercase letter (or a space) and [from_uci] accepts only Q, R, B, N. *)
Theorem from_uci_of_to_uci (m : ChessMove) : mv_from m < 64 -> mv_to m < 64 ->
  from_uci (to_uci m) =
  match promotion m with
  | None => Some (Ok m)
  | Some _ => Some (Err "Invalid promotion piece"%string)
  end.
Proof. exact (from_uci_to_uci m). Qed.

Lemma from_uci_of_to_uci_witness :
  from_uci (to_uci (mkMove 12 28 None)) = Some (Ok (mkMove 12 28 None)) /\
  from_uci (to_uci (mkMove 52 60 (Some Queen))) = Some (Err "Invalid promotion piece"%string).
Proof.
  split.
  - exact (from_uci_of_to_uci (mkMove 12 28 None) ltac:(cbn; lia) ltac:(cbn; lia)).
  - exact (from_uci_of_to_uci (mkMove 52 60 (Some Queen)) ltac:(cbn; lia) ltac:(cbn; lia)).
Defined.

(** [uci_to_move] reads back what [to_uci] writes, promotions to a queen,
    rook, bishop or knight included; a pawn or king promotion (written as a
    space) is rejected. *)
Theorem uci_to_move_of_to_uci (m : ChessMove) : mv_from m < 64 -> mv_to m < 64 ->
  uci_to_move (to_uci m) =
  match promotion m with
  | Some Pawn | Some King => Err "Invalid promotion"%string
  | _ => Ok m
  end.
Proof. exact (uci_to_move_to_uci m). Qed.

Lemma uci_to_move_of_to_uci_witness :
  uci_to_move (to_uci (mkMove 52 60 (Some Queen))) = Ok (mkMove 52 60 (Some Queen)).
Proof. exact (uci_to_move_of_to_uci (mkMove 52 60 (Some Queen)) ltac:(cbn; lia) ltac:(cbn; lia)). Defined.

(** [uci_to_move] reads at most five characters: anything after the fifth
    is ignored, so there is no length check. *)
Theorem uci_to_move_reads_five (s : list ascii) : uci_to_move s = uci_to_move (firstn 5 s).
Proof. exact (uci_to_move_firstn5 s). Qed.

(* ------------------------------------------------------------------ *)
(** ** chess_piece.rs *)

(** [PieceType::from_char] inverts [to_char] for either colour, as does
    [Color::from_char] for [Color::to_char]; the FEN reader maps [to_char]'s
    letter to the piece and the FEN writer uses the same letter.
    [PieceType::from_idx i] is [Some t] exactly when [t]'s index is [i]. *)
Theorem piece_char_conversions (t : PieceType) (c : Color) :
  (pt_from_char (pt_to_char t c) = Some t /\
   color_from_char (color_to_char c) = Some c /\
   piece_of_char (pt_to_char t c) = Some (mkPiece c t) /\
   piece_char (mkPiece c t) = pt_to_char t c) /\
  (forall i, pt_from_idx i = Some t <-> pt_idx t = i).
Proof. split; [exact (piece_chars t c) | intro i; exact (pt_from_idx_spec i t)]. Qed.

(* ------------------------------------------------------------------ *)
(** ** chess_game.rs: is_valid and from_fen *)

(** [is_valid] holds exactly for a pseudo-legal move that, under the
    [Legal] rule set, [is_legal] also accepts; a move that is not
    pseudo-legal is answered [false] without a call to [is_legal]. *)
Theorem is_valid_spec (g : ChessGame) (mov : ChessMove) :
  (is_valid g mov = Some true <->
   In mov (generate_pseudolegal g) /\ (rule_set g = Legal -> is_legal g mov = Some true)) /\
  (~ In mov (generate_pseudolegal g) -> is_valid g mov = Some false).
Proof. split; [exact (is_valid_true g mov) | exact (is_valid_false g mov)]. Qed.

(** A game read by [from_fen] has a board that represents a piece array, an
    empty history, the [Legal] rule set, castling rights below 16, [u32]
    clocks and an en-passant square on the board; its hash is left 0, not
    computed. *)
Theorem from_fen_well_formed (fen : list ascii) (g : ChessGame) :
  from_fen fen = Some g ->
  (exists a, board_matches a 64 (chessboard g)) /\
  game_history g = [] /\ zobrist_hash g = 0%Z /\ rule_set g = Legal /\
  (0 <= castling_rights g < 16)%Z /\
  (halfmove_clock g < 2 ^ 32)%N /\ (fullmove_counter g < 2 ^ 32)%N /\
  (forall e, en_passant g = Some e -> e < 64).
Proof. exact (from_fen_wf fen g). Qed.

Lemma from_fen_well_formed_witness :
  exists g, from_fen (list_ascii_of_string "4k3/8/8/8/4P3/8/8/4K3 b - e3 0 1") = Some g /\
    zobrist_hash g = 0%Z /\ (forall e, en_passant g = Some e -> e < 64).
Proof.
  destruct (from_fen (list_ascii_of_string "4k3/8/8/8/4P3/8/8/4K3 b - e3 0 1")) as [g|] eqn:E;
    [|vm_compute in E; discriminate].
  exists g. split; [reflexivity|].
  destruct (from_fen_well_formed _ _ E) as (_ & _ & Hz & _ & _ & _ & _ & He).
  split; [exact Hz | exact He].
Defined.

(* ------------------------------------------------------------------ *)
(** ** chess_board.rs: attack tables *)

(** [KNIGHT_ATTACKS[i]] holds exactly the squares a knight's jump away from
    [i], [KING_ATTACKS[i]] exactly the squares a king's step away. *)
Theorem knight_king_tables (i j : nat) : i < 64 -> j < 64 ->
  Z.testbit (knight_attacks i) (Z.of_nat j) = knight_step i j /\
  Z.testbit (king_attacks i) (Z.of_nat j) = king_step i j.
Proof. intros Hi Hj. split; [exact (knight_attacks_bits i j Hi Hj) | exact (king_attacks_bits i j Hi Hj)]. Qed.

Lemma knight_king_tables_witness :
  Z.testbit (knight_attacks 1) (Z.of_nat 18) = knight_step 1 18 /\
  Z.testbit (king_attacks 1) (Z.of_nat 18) = king_step 1 18 /\
  knight_step 1 18 = true /\ king_step 1 18 = false.
Proof.
  destruct (knight_king_tables 1 18 ltac:(lia) ltac:(lia)) as [H1 H2].
  split; [exact H1 | split; [exact H2 | split; reflexivity]].
Defined.

(** [WHITE_PAWN_ATTACKS[i]] holds exactly the two diagonal squares one rank
    up from [i] (one at a board edge, none on rank 8), and
    [BLACK_PAWN_ATTACKS[i]] those one rank down. *)
Theorem pawn_attack_tables (i j : nat) : i < 64 -> j < 64 ->
  Z.testbit (pawn_attacks_white i) (Z.of_nat j) = (sq_rank j =? sq_rank i + 1) && (file_dist i j =? 1) /\
  Z.testbit (pawn_attacks_black i) (Z.of_nat j) = (sq_rank j + 1 =? sq_rank i) && (file_dist i j =? 1).
Proof. exact (pawn_attacks_bits i j). Qed.

Lemma pawn_attack_tables_witness :
  Z.testbit (pawn_attacks_white 12) (Z.of_nat 21) = (sq_rank 21 =? sq_rank 12 + 1) && (file_dist 12 21 =? 1) /\
  Z.testbit (pawn_attacks_black 12) (Z.of_nat 21) = (sq_rank 21 + 1 =? sq_rank 12) && (file_dist 12 21 =? 1).
Proof. exact (pawn_attack_tables 12 21 ltac:(lia) ltac:(lia)). Defined.

(** The four rook rays of [i] together cover exactly the other squares of
    its file and rank; the four bishop rays exactly the other squares of its
    diagonals. *)
Theorem slider_ray_tables (i j : nat) : i < 64 -> j < 64 ->
  Z.testbit (union_all (rook_dirs i)) (Z.of_nat j) = same_line i j /\
  Z.testbit (union_all (bishop_dirs i)) (Z.of_nat j) = same_diagonal i j.
Proof. exact (slider_rays_bits i j). Qed.

Lemma slider_ray_tables_witness :
  Z.testbit (union_all (rook_dirs 0)) (Z.of_nat 63) = same_line 0 63 /\
  Z.testbit (union_all (bishop_dirs 0)) (Z.of_nat 63) = same_diagonal 0 63.
Proof. exact (slider_ray_tables 0 63 ltac:(lia) ltac:(lia)). Defined.

(** [BETWEEN[i][j]] is [None] exactly when the squares are not on one file,
    rank or diagonal; otherwise it holds exactly the squares strictly
    between them. *)
Theorem between_table (i j k : nat) : i < 64 -> j < 64 -> k < 64 ->
  match BETWEEN i j with
  | None => aligned i j = false
  | Some b => aligned i j = true /\ Z.testbit b (Z.of_nat k) = strictly_between i j k
  end.
Proof. exact (between_bits i j k). Qed.

Lemma between_table_witness :
  match BETWEEN 0 63 with
  | None => aligned 0 63 = false
  | Some b => aligned 0 63 = true /\ Z.testbit b (Z.of_nat 27) = strictly_between 0 63 27
  end.
Proof. exact (between_table 0 63 27 ltac:(lia) ltac:(lia) ltac:(lia)). Defined.

(* ------------------------------------------------------------------ *)
(** ** chess_game.rs: calculate_hash and move generation *)

(** On a board that represents a piece array, the piece keys of
    [calculate_hash] cancel: its two loops XOR every piece key twice, so the
    result depends only on the castling rights, the en-passant file and the
    side to move. *)
Theorem calculate_hash_ignores_pieces (g : ChessGame) (a : BoardArray) :
  board_matches a 64 (chessboard g) ->
  calculate_hash g =
  let h3 := key_castling (castling_rights g) in
  let h4 := match en_passant g with Some sq => Z.lxor h3 (key_ep (sq_file sq)) | None => h3 end in
  match side_to_move g with Black => Z.lxor h4 key_side | White => h4 end.
Proof. exact (calculate_hash_pieces_cancel g a). Qed.

Lemma calculate_hash_ignores_pieces_witness :
  calculate_hash sample_game = key_castling (castling_rights sample_game).
Proof. exact (calculate_hash_ignores_pieces sample_game sample_array (board_matches_build sample_array)). Defined.

(** The [clear] test of castling looks only at the one square between the
    king and its destination (f1, d1, f8, d8): that it is empty and that it
    and the king's square are not attacked. The destination square (g1, c1,
    g8, c8) is not examined. *)
Theorem castle_clear_checks (g : ChessGame) :
  let b := chessboard g in
  let opp := opposite (side_to_move g) in
  let chk k s := negb (bb_is_set (all_pieces b) s) &&
                 negb (is_square_attacked b k opp || is_square_attacked b s opp) in
  castle_clear g 4 6 = chk 4 5 /\ castle_clear g 4 2 = chk 4 3 /\
  castle_clear g 60 62 = chk 60 61 /\ castle_clear g 60 58 = chk 60 59.
Proof. exact (castle_clear_squares g). Qed.

(** On a board that represents a piece array, every pseudo-legal move
    starts on a square holding a piece of the side to move, except the four
    castling moves, which start on e1 or e8. *)
Theorem pseudolegal_moves_origin (g : ChessGame) (a : BoardArray) (m : ChessMove) :
  board_matches a 64 (chessboard g) -> In m (generate_pseudolegal g) ->
  (exists t, a (mv_from m) = Some (mkPiece (side_to_move g) t)) \/
  In m [mkMove 4 6 None; mkMove 4 2 None; mkMove 60 62 None; mkMove 60 58 None].
Proof. exact (generated_moves_from g a m). Qed.

Lemma pseudolegal_moves_origin_witness :
  In (mkMove 12 28 None) (generate_pseudolegal sample_game) /\
  ((exists t, sample_array 12 = Some (mkPiece White t)) \/
   In (mkMove 12 28 None) [mkMove 4 6 None; mkMove 4 2 None; mkMove 60 62 None; mkMove 60 58 None]).
Proof.
  assert (H : In (mkMove 12 28 None) (generate_pseudolegal sample_game)).
  { assert (E : existsb (move_eqb (mkMove 12 28 None)) (generate_pseudolegal sample_game) = true)
      by (vm_compute; reflexivity).
    apply existsb_exists in E as (x & Hx & Ex). apply move_eqb_spec in Ex. rewrite Ex. exact Hx. }
  split; [exact H | exact (pseudolegal_moves_origin sample_game sample_array _
                             (board_matches_build sample_array) H)].
Defined.
